(** * canvasupdater: date directives in course archives

    A shallow embedding of [src/canvasupdater.cpp]: the date engine
    ([addDays]), the template formatter ([formatDate]), the directive
    scanner ([processFile]), the directory pass ([processDirectory]) and
    the command line of [main], followed by the properties stated about
    them.

    Conventions of the embedding.
    - [std::string] is a list of characters; positions are [size_t] values
      that the program only ever obtains from searches in the string or by
      adding lengths to them, so they are modelled as [nat] and
      [std::string::npos] as [None].
    - [int] is a 32-bit two's-complement integer, modelled as [Z] with the
      wrap-around of each [int] operation written out ([wrap]). The
      program does not guard its [int] additions; where C++ leaves an
      overflow undefined, the model takes the result the usual
      implementations give.
    - The functions of the C and C++ standard libraries that the program
      calls (members of [std::string], [std::stoi], [std::to_string],
      [std::mktime]) are defined here by what they compute on the values
      the program passes.
    - A loop of the program is a function with a fuel argument; running out
      of fuel ([None]) stands for an execution that has not finished after
      that many iterations. *)

From Stdlib Require Import Ascii String DecimalString.
From Stdlib Require Import ZArith List Bool Arith Lia.
Import ListNotations.

Local Open Scope char_scope.
Local Open Scope list_scope.

(** ** std::string *)

Definition text := list ascii.

(** A C++ string literal. *)
Definition lit (s : string) : text := list_ascii_of_string s.

(** [starts_with pat s]: the characters of [pat] are the first characters
    of [s] (the comparison [find] performs at one candidate position). *)
Fixpoint starts_with (pat s : text) : bool :=
  match pat, s with
  | [], _ => true
  | _ :: _, [] => false
  | a :: pat', b :: s' => Ascii.eqb a b && starts_with pat' s'
  end.

(** Search of [pat] in [suffix], the part of the string that starts at
    index [i]; lowest index first. *)
Fixpoint find_in (pat suffix : text) (i : nat) : option nat :=
  if starts_with pat suffix then Some i
  else match suffix with
       | [] => None
       | _ :: rest => find_in pat rest (S i)
       end.

(** [s.find(pat, pos)]: the lowest index [p >= pos] at which [pat] occurs
    in [s], [None] for [npos]. *)
Definition find (s pat : text) (pos : nat) : option nat :=
  if Nat.ltb (length s) pos then None else find_in pat (skipn pos s) pos.

Fixpoint rfind_in (c : ascii) (s : text) (i : nat) (last : option nat)
  : option nat :=
  match s with
  | [] => last
  | a :: rest => rfind_in c rest (S i) (if Ascii.eqb a c then Some i else last)
  end.

(** [s.rfind(c)]: the highest index at which the character [c] occurs. *)
Definition rfind (s : text) (c : ascii) : option nat := rfind_in c s 0 None.

(** [s.substr(pos, n)] and [s.substr(pos)], for [pos <= s.size()] (the
    program never calls them otherwise). *)
Definition substr (s : text) (pos n : nat) : text := firstn n (skipn pos s).
Definition substr_from (s : text) (pos : nat) : text := skipn pos s.

(** [s.replace(pos, len, str)], for [pos <= s.size()]. *)
Definition replace (s : text) (pos len : nat) (str : text) : text :=
  firstn pos s ++ str ++ skipn (pos + len) s.

Definition mem_char (c : ascii) (set : text) : bool :=
  existsb (Ascii.eqb c) set.

Fixpoint find_first_not_of_in (set s : text) (i : nat) : option nat :=
  match s with
  | [] => None
  | c :: rest =>
      if mem_char c set then find_first_not_of_in set rest (S i) else Some i
  end.

(** [s.find_first_not_of(set)]. *)
Definition find_first_not_of (s set : text) : option nat :=
  find_first_not_of_in set s 0.

Fixpoint find_last_not_of_in (set s : text) (i : nat) (last : option nat)
  : option nat :=
  match s with
  | [] => last
  | c :: rest =>
      find_last_not_of_in set rest (S i)
        (if mem_char c set then last else Some i)
  end.

(** [s.find_last_not_of(set)]. *)
Definition find_last_not_of (s set : text) : option nat :=
  find_last_not_of_in set s 0 None.

(** [s.erase(0, n)] where [n] is the result of a search: [npos] erases the
    whole string. *)
Definition erase_prefix (s : text) (n : option nat) : text :=
  match n with
  | None => []
  | Some k => skipn k s
  end.

(** [s.erase(p + 1)] where [p] is the result of a search: [npos + 1] wraps
    around to [0] in [size_t], so the whole string is erased. *)
Definition erase_after (s : text) (p : option nat) : text :=
  match p with
  | None => firstn 0 s
  | Some k => firstn (S k) s
  end.

(** ** int *)

Local Open Scope Z_scope.

Definition INT_MIN : Z := - 2 ^ 31.
Definition INT_MAX : Z := 2 ^ 31 - 1.

(** The value an [int] holds after a result [z] is stored in it. *)
Definition wrap (z : Z) : Z := (z + 2 ^ 31) mod 2 ^ 32 - 2 ^ 31.

Definition int_add (a b : Z) : Z := wrap (a + b).
Definition int_sub (a b : Z) : Z := wrap (a - b).
Definition int_neg (a : Z) : Z := wrap (- a).

(** [z] is representable as an [int]. *)
Definition in_int (z : Z) : Prop := INT_MIN <= z <= INT_MAX.

(** [std::to_string(int)]: decimal digits, with a leading minus sign for a
    negative value. *)
Definition to_string (z : Z) : text :=
  list_ascii_of_string (NilZero.string_of_int (Z.to_int z)).

(** The characters [isspace] accepts in the C locale: space and the
    control characters 9 to 13. *)
Definition isspace (c : ascii) : bool :=
  let n := nat_of_ascii c in
  Nat.eqb n 32 || (Nat.leb 9 n && Nat.leb n 13).

Definition isdigit (c : ascii) : bool :=
  let n := nat_of_ascii c in Nat.leb 48 n && Nat.leb n 57.

Definition digit_value (c : ascii) : Z := Z.of_nat (nat_of_ascii c) - 48.

Fixpoint skip_space (s : text) : text :=
  match s with
  | c :: rest => if isspace c then skip_space rest else s
  | [] => []
  end.

Fixpoint leading_digits (s : text) : text :=
  match s with
  | c :: rest => if isdigit c then c :: leading_digits rest else []
  | [] => []
  end.

Definition decimal_value (ds : text) : Z :=
  fold_left (fun acc c => 10 * acc + digit_value c) ds 0.

(** What a call of [std::stoi] does: it returns an [int], or throws
    [std::invalid_argument] or [std::out_of_range]. *)
Inductive stoi_result : Type :=
| Parsed (v : Z)
| invalid_argument
| out_of_range.

(** The optional sign in front of the digits. *)
Definition read_sign (s : text) : bool * text :=
  match s with
  | "-" :: rest => (true, rest)
  | "+" :: rest => (false, rest)
  | _ => (false, s)
  end.

(** [std::stoi(s)], that is [strtol] in base 10 on the characters of [s]:
    leading white space is skipped, one sign is accepted, and the longest
    run of decimal digits that follows is the number; what comes after it
    is ignored. No digit there throws [invalid_argument]; a value that
    does not fit an [int] throws [out_of_range]. *)
Definition stoi (s : text) : stoi_result :=
  let '(negative, s) := read_sign (skip_space s) in
  match leading_digits s with
  | [] => invalid_argument
  | ds =>
      let v := if negative then - decimal_value ds else decimal_value ds in
      if (INT_MIN <=? v) && (v <=? INT_MAX) then Parsed v else out_of_range
  end.

(** ** std::tm and mktime *)

(** The calendar fields of [std::tm]. The time-of-day fields are zero in
    every [std::tm] the program builds and are left out. *)
Record tm : Type := mk_tm {
  tm_mday : Z;   (* day of the month, 1..31 *)
  tm_mon : Z;    (* months since January, 0..11 *)
  tm_year : Z;   (* years since 1900 *)
  tm_wday : Z;   (* days since Sunday, 0..6 *)
  tm_yday : Z    (* days since January 1, 0..365 *)
}.

Definition is_leap (y : Z) : bool :=
  (y mod 4 =? 0) && (negb (y mod 100 =? 0) || (y mod 400 =? 0)).

(** The day number of January 1 of year [y] in the proleptic Gregorian
    calendar. Consecutive days have consecutive numbers, and the origin is
    placed so that the days whose number is a multiple of 7 are Sundays
    (day 0 is January 2 of year 0). *)
Definition days_before_year (y : Z) : Z :=
  365 * y + (y - 1) / 4 - (y - 1) / 100 + (y - 1) / 400.

Definition year_length (y : Z) : Z := if is_leap y then 366 else 365.

(** Days from January 1 to the first day of month [m] (0..11; 12 gives the
    length of the year). *)
Definition days_before_month (leap : bool) (m : Z) : Z :=
  nth (Z.to_nat m) [0; 31; 59; 90; 120; 151; 181; 212; 243; 273; 304; 334; 365] 0
  + (if leap && (2 <=? m) then 1 else 0).

Definition days_in_month (y m : Z) : Z :=
  days_before_month (is_leap y) (m + 1) - days_before_month (is_leap y) m.

(** The day number of day [d] of month [m] (0..11) of year [y]; [d] may
    lie outside the month. *)
Definition days_from_civil (y m d : Z) : Z :=
  days_before_year y + days_before_month (is_leap y) m + (d - 1).

(** The year that holds day number [z]: an estimate from the mean length
    of a year, corrected by at most one year. *)
Definition year_of_day (z : Z) : Z :=
  let g := (400 * z) / 146097 in
  if z <? days_before_year g then g - 1
  else if days_before_year (g + 1) <=? z then g + 1
  else g.

(** The month that holds day [yd] of a year: the last one that starts on
    or before it, found by a downward scan from December. *)
Fixpoint month_scan (leap : bool) (yd : Z) (m : nat) : Z :=
  match m with
  | O => 0
  | S m' =>
      if days_before_month leap (Z.of_nat m) <=? yd then Z.of_nat m
      else month_scan leap yd m'
  end.

Definition month_of_yday (leap : bool) (yd : Z) : Z := month_scan leap yd 11.

(** The day number that the fields [tm_year], [tm_mon] and [tm_mday] of
    [t] denote. The fields need not be in range: [tm_mon] is first brought
    into 0..11 by carrying into the year, and [tm_mday] counts on from the
    first day of that month. *)
Definition day_number (t : tm) : Z :=
  let y := tm_year t + 1900 + tm_mon t / 12 in
  let m := tm_mon t mod 12 in
  days_from_civil y m (tm_mday t).

(** The calendar date of day number [z], with its weekday and its day of
    the year. *)
Definition date_of_day (z : Z) : tm :=
  let y := year_of_day z in
  let yd := z - days_before_year y in
  let m := month_of_yday (is_leap y) yd in
  {| tm_mday := yd - days_before_month (is_leap y) m + 1;
     tm_mon := m;
     tm_year := y - 1900;
     tm_wday := z mod 7;
     tm_yday := yd |}.

(** [std::mktime(&t)], as far as the program uses it: the fields of [t]
    are normalised in place. The calendar fields are turned into the point
    in time they denote, and that point is broken down again into a date
    with every field in its range, which also recomputes [tm_wday] and
    [tm_yday].

    Two things that [mktime] depends on are fixed: the time zone of the
    process is one in which the midnight of a date is a time of that same
    date (as in UTC), so that only the calendar fields matter, and
    [time_t] is wide enough for every date an [int] offset can reach, so
    that the call does not fail. *)
Definition mktime (t : tm) : tm := date_of_day (day_number t).

(** [addDays], lines 130-136. [baseDate] is passed by value. *)
Definition addDays (baseDate : tm) (days : Z) : tm :=
  let baseDate :=
    {| tm_mday := int_add (tm_mday baseDate) days;
       tm_mon := tm_mon baseDate;
       tm_year := tm_year baseDate;
       tm_wday := tm_wday baseDate;
       tm_yday := tm_yday baseDate |} in
  mktime baseDate.

(** ** formatDate *)

Definition monthNames : list text :=
  map lit ["January"; "February"; "March"; "April"; "May"; "June"; "July";
           "August"; "September"; "October"; "November"; "December"]%string.

Definition monthAbbrs : list text :=
  map lit ["Jan"; "Feb"; "Mar"; "Apr"; "May"; "Jun"; "Jul"; "Aug"; "Sep";
           "Oct"; "Nov"; "Dec"]%string.

Definition dayNames : list text :=
  map lit ["Sunday"; "Monday"; "Tuesday"; "Wednesday"; "Thursday"; "Friday";
           "Saturday"]%string.

Definition dayAbbrs : list text :=
  map lit ["Sun"; "Mon"; "Tue"; "Wed"; "Thu"; "Fri"; "Sat"]%string.

(** [names[i]] for an array of C strings. The program indexes these arrays
    with [tm_mon] and [tm_wday] of a date that [mktime] has normalised, so
    the index is in range; outside the array (undefined behaviour in the
    program) the model gives the empty string. *)
Definition index (names : list text) (i : Z) : text :=
  if i <? 0 then [] else nth (Z.to_nat i) names [].

(** [dayStream << std::setw(2) << std::setfill('0') << n]: the decimal
    text of [n], filled on the left with zeros up to two characters. *)
Definition setw2_fill0 (n : Z) : text :=
  let s := to_string n in
  repeat "0"%char (2 - length s)%nat ++ s.

(** The [replacements] vector of lines 164-173. *)
Definition replacements (date : tm) : list (text * text) :=
  let yearStr := to_string (int_add (tm_year date) 1900) in
  let monthFullNameStr := index monthNames (tm_mon date) in
  let monthAbbrStr := index monthAbbrs (tm_mon date) in
  let dayFullNameStr := index dayNames (tm_wday date) in
  let dayNameAbbrStr := index dayAbbrs (tm_wday date) in
  let dayPaddedStr := setw2_fill0 (tm_mday date) in
  let dayStr := to_string (tm_mday date) in
  [ (lit "YYYY", yearStr);
    (lit "MM", monthFullNameStr);
    (lit "NN", dayFullNameStr);
    (lit "DD", dayPaddedStr);
    (lit "Y", yearStr);
    (lit "M", monthAbbrStr);
    (lit "N", dayNameAbbrStr);
    (lit "D", dayStr) ].

(** The [while] loop of lines 180-183 for one pair [(from, to)]. *)
Fixpoint replace_loop (fuel : nat) (format from to : text) (start_pos : nat)
  : option text :=
  match fuel with
  | O => None
  | S fuel' =>
      match find format from start_pos with
      | None => Some format
      | Some start_pos =>
          replace_loop fuel'
            (replace format start_pos (length from) to) from to
            (start_pos + length to)
      end
  end.

(** The [for] loop of lines 176-184. Each pass searches at most once per
    character of [format], which bounds its iterations
    ([replace_loop_terminates]). *)
Fixpoint apply_replacements (repls : list (text * text)) (format : text)
  : option text :=
  match repls with
  | [] => Some format
  | (from, to) :: rest =>
      match replace_loop (S (length format)) format from to 0 with
      | None => None
      | Some format' => apply_replacements rest format'
      end
  end.

(** [formatDate], lines 144-187. *)
Definition formatDate (date : tm) (format : text) : option text :=
  apply_replacements (replacements date) format.

(** ** processFile *)

(** What the program prints while it processes a file, in order (the
    file name, which each message also shows, is left out), and one ghost
    event ([spliced]) that records each replacement made in the buffer. *)
Inductive event : Type :=
| debug_day_number (argsStr dayOffsetStr : text)  (* lines 258-260, std::cout *)
| warning_invalid_day                             (* line 266, std::cerr *)
| warning_cannot_open                             (* line 212, std::cerr *)
| warning_cannot_write                            (* line 293, std::cerr *)
| spliced (replaceStartPos replaceEndPos : nat) (newDateStr : text).

Definition startMarker : text := lit "DateReplace(".

(** The characters trimmed from both ends of the format: space, tab, line
    feed, carriage return, double quote, underscore and parentheses. *)
Definition trim_chars : text :=
  [" "; "009"; "010"; "013"; "034"; "_"; "("; ")"]%char.

(** Lines 273-274. *)
Definition trim_format (formatStr : text) : text :=
  let formatStr :=
    erase_prefix formatStr (find_first_not_of formatStr trim_chars) in
  erase_after formatStr (find_last_not_of formatStr trim_chars).

(** Lines 241-270: the format and the day number of a directive, or the
    failure of [std::stoi], with what was printed. *)
Inductive parsed_args : Type :=
| args_ok (formatStr : text) (dayOffset : Z) (out : list event)
| args_invalid_day (out : list event).

Definition parse_args (argsStr : text) (startIndex : Z) : parsed_args :=
  match rfind argsStr ","%char with
  | None => args_ok argsStr startIndex []
  | Some commaPos =>
      let formatStr := substr argsStr 0 commaPos in
      let dayOffsetStr := substr_from argsStr (commaPos + 1) in
      match stoi dayOffsetStr with
      | Parsed dayOffset =>
          args_ok formatStr dayOffset [debug_day_number argsStr dayOffsetStr]
      | _ =>
          args_invalid_day
            [debug_day_number argsStr dayOffsetStr; warning_invalid_day]
      end
  end.

(** The ways one evaluation of the loop condition and body (lines 225-288)
    ends. *)
Inductive step_outcome : Type :=
| no_marker                               (* [find] gave [npos]: loop exit *)
| skip_malformed (searchPos : nat)        (* [continue] of line 229, 234, 238 *)
| skip_invalid_day (searchPos : nat) (out : list event)  (* line 268 *)
| replaced (content : text) (searchPos : nat) (out : list event). (* line 287 *)

Definition loop_body (startDate : tm) (startIndex : Z)
    (content : text) (searchPos : nat) : option step_outcome :=
  match find content startMarker searchPos with
  | None => Some no_marker
  | Some searchPos =>
      let openParenPos := (searchPos + length startMarker)%nat in
      match find content (lit ")") openParenPos with
      | None => Some (skip_malformed searchPos)
      | Some closeParenPos =>
          match find content (lit ">") closeParenPos with
          | None => Some (skip_malformed searchPos)
          | Some gtPos =>
              let replaceStartPos := (gtPos + 1)%nat in
              match find content (lit "<") replaceStartPos with
              | None => Some (skip_malformed searchPos)
              | Some replaceEndPos =>
                  let argsStr :=
                    substr content openParenPos
                      (closeParenPos - openParenPos) in
                  match parse_args argsStr startIndex with
                  | args_invalid_day out =>
                      Some (skip_invalid_day closeParenPos out)
                  | args_ok formatStr dayOffset out =>
                      let formatStr := trim_format formatStr in
                      let finalDayOffset := int_sub dayOffset startIndex in
                      let targetDate := addDays startDate finalDayOffset in
                      match formatDate targetDate formatStr with
                      | None => None
                      | Some newDateStr =>
                          Some (replaced
                                  (replace content replaceStartPos
                                     (replaceEndPos - replaceStartPos)
                                     newDateStr)
                                  (replaceStartPos + length newDateStr)
                                  (out ++ [spliced replaceStartPos
                                             replaceEndPos newDateStr]))
                      end
                  end
              end
          end
      end
  end.

(** The [while] loop of lines 225-288, from the state [(content,
    searchPos, modified)] and with [out] printed so far. [modified] is
    set at the top of the body, as soon as a marker is found. *)
Fixpoint scan (fuel : nat) (startDate : tm) (startIndex : Z)
    (content : text) (searchPos : nat) (modified : bool) (out : list event)
  : option (text * bool * list event) :=
  match fuel with
  | O => None
  | S fuel' =>
      match loop_body startDate startIndex content searchPos with
      | None => None
      | Some no_marker => Some (content, modified, out)
      | Some (skip_malformed searchPos) =>
          scan fuel' startDate startIndex content searchPos true out
      | Some (skip_invalid_day searchPos out') =>
          scan fuel' startDate startIndex content searchPos true (out ++ out')
      | Some (replaced content searchPos out') =>
          scan fuel' startDate startIndex content searchPos true (out ++ out')
      end
  end.

Fixpoint text_eqb (a b : text) : bool :=
  match a, b with
  | [], [] => true
  | x :: a', y :: b' => Ascii.eqb x y && text_eqb a' b'
  | _, _ => false
  end.

Definition validExtensions : list text :=
  map lit [".html"; ".htm"; ".xml"; ".txt"]%string.

(** What [processFile] leaves behind: the text written to the file
    ([None] when the file is not written) and what was printed. *)
Record file_result : Type := mk_file_result {
  written : option text;
  printed : list event
}.

(** [processFile], lines 196-299. The file system is represented by what
    the two streams do: [fileIn] is the content read ([None] when the
    file cannot be opened) and [can_write] tells whether [fileOut] opens. *)
Definition processFile (fuel : nat) (extension : text)
    (fileIn : option text) (can_write : bool)
    (startDate : tm) (startIndex : Z) : option file_result :=
  if negb (existsb (text_eqb extension) validExtensions) then
    Some (mk_file_result None [])
  else
    match fileIn with
    | None => Some (mk_file_result None [warning_cannot_open])
    | Some content =>
        match scan fuel startDate startIndex content 0 false [] with
        | None => None
        | Some (content, modified, out) =>
            if modified then
              if can_write then Some (mk_file_result (Some content) out)
              else Some (mk_file_result None (out ++ [warning_cannot_write]))
            else Some (mk_file_result None out)
        end
    end.

(** ** processDirectory *)

(** What [std::filesystem::path] gives for a path of the program, in the
    POSIX format that the program's use of [unzip] and [zip] supposes:
    [/] separates the components, the file name is what follows the last
    [/], and the extension is the part of the file name from its last
    period on, unless that period is the first character of the name or
    the name is [.] or [..]. *)
Definition filename (path : text) : text :=
  match rfind path "/"%char with
  | None => path
  | Some slashPos => skipn (slashPos + 1) path
  end.

Definition extension (path : text) : text :=
  let name := filename path in
  match name with
  | "."%char :: rest =>
      if Nat.leb (length name) 2 then []
      else match rfind name "."%char with
           | Some (S pos) => skipn (S pos) name
           | _ => []
           end
  | _ =>
      match rfind name "."%char with
      | Some (S pos) => skipn (S pos) name
      | _ => []
      end
  end.

Definition stem (path : text) : text :=
  let name := filename path in
  firstn (length name - length (extension path)) name.

(** [path.replace_filename(name)]: the file name is removed and [name] is
    appended; what is left of the path is empty or ends with a [/], so
    no separator is added. *)
Definition replace_filename (path name : text) : text :=
  firstn (length path - length (filename path)) path ++ name.

(** One entry that the directory iterator yields: its path, whether it is
    a regular file, and what opening the file for reading and for writing
    gives. *)
Record dir_entry : Type := mk_dir_entry {
  entry_path : text;
  is_regular_file : bool;
  entry_fileIn : option text;
  entry_can_write : bool
}.

(** [processDirectory], lines 307-313, over the entries in the order in
    which the iterator yields them (the iteration itself is taken to
    succeed). The result lists what [processFile] did for each regular
    file. *)
Fixpoint processDirectory (fuel : nat) (entries : list dir_entry)
    (startDate : tm) (startIndex : Z) : option (list (text * file_result)) :=
  match entries with
  | [] => Some []
  | entry :: rest =>
      if is_regular_file entry then
        match processFile fuel (extension (entry_path entry))
                (entry_fileIn entry) (entry_can_write entry)
                startDate startIndex with
        | None => None
        | Some r =>
            match processDirectory fuel rest startDate startIndex with
            | None => None
            | Some rs => Some ((entry_path entry, r) :: rs)
            end
        end
      else processDirectory fuel rest startDate startIndex
  end.

(** ** main: the command line *)

(** The four variables that the argument loop fills. *)
Record options : Type := mk_options {
  startDateStr : text;
  archivePathStr : text;
  outputArchivePathStr : text;
  startIndex_option : Z
}.

(** Lines 29-32. *)
Definition initial_options : options :=
  {| startDateStr := []; archivePathStr := []; outputArchivePathStr := [];
     startIndex_option := 0 |}.

(** The argument loop of lines 35-52 over [argv[1]], [argv[2]], ...
    [None] is the [return 1] of line 46. A flag is one only when an
    argument follows it ([i + 1 < argc]); the last argument always takes
    the final [else]. *)
Fixpoint argument_loop (args : list text) (o : options) : option options :=
  match args with
  | [] => Some o
  | arg :: rest =>
      match rest with
      | next :: rest' =>
          if text_eqb arg (lit "-start") then
            argument_loop rest'
              {| startDateStr := next;
                 archivePathStr := archivePathStr o;
                 outputArchivePathStr := outputArchivePathStr o;
                 startIndex_option := startIndex_option o |}
          else if text_eqb arg (lit "-o") then
            argument_loop rest'
              {| startDateStr := startDateStr o;
                 archivePathStr := archivePathStr o;
                 outputArchivePathStr := next;
                 startIndex_option := startIndex_option o |}
          else if text_eqb arg (lit "-i") then
            match stoi next with
            | Parsed startIndex =>
                argument_loop rest'
                  {| startDateStr := startDateStr o;
                     archivePathStr := archivePathStr o;
                     outputArchivePathStr := outputArchivePathStr o;
                     startIndex_option := startIndex |}
            | _ => None
            end
          else
            argument_loop rest
              {| startDateStr := startDateStr o;
                 archivePathStr := arg;
                 outputArchivePathStr := outputArchivePathStr o;
                 startIndex_option := startIndex_option o |}
      | [] =>
          Some {| startDateStr := startDateStr o;
                  archivePathStr := arg;
                  outputArchivePathStr := outputArchivePathStr o;
                  startIndex_option := startIndex_option o |}
      end
  end.

(** Lines 60-64: the output path when none is given. *)
Definition default_output_path (archivePathStr : text) : text :=
  let newFilename :=
    stem archivePathStr ++ lit "_updated" ++ extension archivePathStr in
  replace_filename archivePathStr newFilename.

(** How the first part of [main] (lines 28-64) ends: with the [return 1]
    of line 46 or of line 56, or with the four values that the rest of
    [main] works with. *)
Inductive arguments_result : Type :=
| invalid_index                    (* line 45-46 *)
| usage                            (* line 55-56 *)
| accepted (o : options).

Definition main_arguments (args : list text) : arguments_result :=
  match argument_loop args initial_options with
  | None => invalid_index
  | Some o =>
      if (Nat.eqb (length (startDateStr o)) 0
          || Nat.eqb (length (archivePathStr o)) 0)%bool then usage
      else if Nat.eqb (length (outputArchivePathStr o)) 0 then
        accepted {| startDateStr := startDateStr o;
                    archivePathStr := archivePathStr o;
                    outputArchivePathStr :=
                      default_output_path (archivePathStr o);
                    startIndex_option := startIndex_option o |}
      else accepted o
  end.

(** * Notions used in the statements *)

(** [pat] occurs in [s]: some part of [s] is [pat]. *)
Definition occurs (pat s : text) : Prop :=
  exists before after, s = before ++ pat ++ after.

(** [i] is the first position at or after [from] where [s] holds the
    character [c]. *)
Definition first_at (c : ascii) (s : text) (from i : nat) : Prop :=
  (from <= i)%nat /\ nth_error s i = Some c /\
  forall q, (from <= q < i)%nat -> nth_error s q <> Some c.

(** The marker occurrence at [p] has its closing parenthesis and its
    target span: the three searches of lines 228-238 succeed. *)
Definition delimited (content : text) (p : nat) : Prop :=
  exists c g l,
    find content (lit ")") (p + length startMarker) = Some c /\
    find content (lit ">") c = Some g /\
    find content (lit "<") (g + 1) = Some l.

(** Every marker occurrence at or after [pos] is delimited. *)
Definition delimited_from (content : text) (pos : nat) : Prop :=
  forall p, (pos <= p)%nat -> find content startMarker p = Some p ->
            delimited content p.

(** What one pass of the formatter is meant to compute, read from left
    to right over [s]: every occurrence of [from] that starts outside the
    occurrence replaced before it is replaced by [to], and the other
    characters are kept. [skip] counts the characters of [s] that still
    belong to the occurrence just replaced. *)
Fixpoint replace_all (from to : text) (skip : nat) (s : text) : text :=
  match s with
  | [] => []
  | c :: rest =>
      match skip with
      | S k => replace_all from to k rest
      | O =>
          if starts_with from s
          then to ++ replace_all from to (length from - 1) rest
          else c :: replace_all from to 0 rest
      end
  end.

(** [delimited] as a test, and the test that every marker occurrence of
    a buffer is delimited. *)
Definition delimitedb (content : text) (p : nat) : bool :=
  match find content (lit ")") (p + length startMarker) with
  | None => false
  | Some c =>
      match find content (lit ">") c with
      | None => false
      | Some g =>
          match find content (lit "<") (g + 1) with
          | None => false
          | Some _ => true
          end
      end
  end.

Definition all_delimited (content : text) : bool :=
  forallb
    (fun p =>
       match find content startMarker p with
       | Some q => if Nat.eqb q p then delimitedb content p else true
       | None => true
       end)
    (seq 0 (S (length content))).

(** The options with another archive path. *)
Definition set_archive (arg : text) (o : options) : options :=
  {| startDateStr := startDateStr o;
     archivePathStr := arg;
     outputArchivePathStr := outputArchivePathStr o;
     startIndex_option := startIndex_option o |}.

(** The three flags of the command line, and the arguments that a list of
    (flag, value) pairs stands for. *)
Definition flags : list text := [lit "-start"; lit "-o"; lit "-i"].

Definition flag_pairs (pairs : list (text * text)) : list text :=
  concat (map (fun p => [fst p; snd p]) pairs).

(** The text [s] holds none of the four capital letters that the tokens
    of the formatter are made of. *)
Definition no_token_letter (s : text) : Prop :=
  ~ In "Y"%char s /\ ~ In "M"%char s /\ ~ In "N"%char s /\ ~ In "D"%char s.

(** The event [e] records a replacement made in the buffer. *)
Definition is_spliced (e : event) : bool :=
  match e with
  | spliced _ _ _ => true
  | _ => false
  end.

(** A normalised date: the month and the day of the month are in range
    for the proleptic Gregorian calendar, and the weekday and the day of
    the year are those of that day. *)
Definition normalized (t : tm) : Prop :=
  let y := tm_year t + 1900 in
  0 <= tm_mon t <= 11 /\
  1 <= tm_mday t <= days_in_month y (tm_mon t) /\
  tm_yday t = days_before_month (is_leap y) (tm_mon t) + (tm_mday t - 1) /\
  tm_wday t = days_from_civil y (tm_mon t) (tm_mday t) mod 7.

(** * Sample inputs *)

(** Monday 01/15/2024, Monday 08/26/2024 and Friday 03/15/2024. *)
Definition jan_15_2024 : tm :=
  {| tm_mday := 15; tm_mon := 0; tm_year := 124; tm_wday := 1; tm_yday := 14 |}.
Definition aug_26_2024 : tm :=
  {| tm_mday := 26; tm_mon := 7; tm_year := 124; tm_wday := 1; tm_yday := 238 |}.
Definition mar_15_2024 : tm :=
  {| tm_mday := 15; tm_mon := 2; tm_year := 124; tm_wday := 5; tm_yday := 74 |}.

(** * Properties *)

(** ** Searching in a string *)

Section Find.

Local Open Scope nat_scope.

Lemma starts_with_app (pat rest : text) : starts_with pat (pat ++ rest) = true.
Proof.
  induction pat as [|a pat IH]; simpl; [reflexivity|].
  now rewrite Ascii.eqb_refl, IH.
Qed.

Lemma starts_with_inv (pat s : text) :
  starts_with pat s = true -> exists rest, s = pat ++ rest.
Proof.
  revert s; induction pat as [|a pat IH]; intros s H.
  - now exists s.
  - destruct s as [|b s]; simpl in H; [discriminate|].
    apply andb_prop in H as [Hab Hs].
    apply Ascii.eqb_eq in Hab; subst b.
    destruct (IH s Hs) as [rest ->].
    now exists rest.
Qed.

Lemma starts_with_length (pat s : text) :
  starts_with pat s = true -> length pat <= length s.
Proof.
  intros H; destruct (starts_with_inv _ _ H) as [rest ->].
  rewrite length_app; lia.
Qed.

(** A successful search returns a position in range where the pattern
    occurs, and no position between the start and the result holds it. *)
Lemma find_in_Some (pat s : text) (i p : nat) :
  find_in pat s i = Some p ->
  i <= p /\ p - i <= length s /\
  starts_with pat (skipn (p - i) s) = true /\
  forall q, i <= q < p -> starts_with pat (skipn (q - i) s) = false.
Proof.
  revert i; induction s as [|c s IH]; intros i; simpl.
  - destruct (starts_with pat []) eqn:E; [|discriminate].
    intros [= <-]. rewrite Nat.sub_diag. simpl. repeat split; auto; lia.
  - destruct (starts_with pat (c :: s)) eqn:E.
    + intros [= <-]. rewrite Nat.sub_diag. simpl. repeat split; auto; lia.
    + intros H. destruct (IH _ H) as (Hle & Hlen & Hp & Hmin).
      split; [lia|]. split; [lia|]. split.
      * replace (p - i) with (S (p - S i)) by lia. exact Hp.
      * intros q Hq. destruct (Nat.eq_dec q i) as [->|Hne].
        -- now rewrite Nat.sub_diag.
        -- replace (q - i) with (S (q - S i)) by lia. apply Hmin; lia.
Qed.

Lemma find_in_None (pat s : text) (i : nat) :
  find_in pat s i = None ->
  forall k, k <= length s -> starts_with pat (skipn k s) = false.
Proof.
  revert i; induction s as [|c s IH]; intros i; simpl.
  - destruct (starts_with pat []) eqn:E; [discriminate|].
    intros _ k Hk. now replace k with 0 by lia.
  - destruct (starts_with pat (c :: s)) eqn:E; [discriminate|].
    intros H k Hk. destruct k as [|k]; [exact E|].
    simpl. apply (IH _ H). lia.
Qed.

Lemma find_Some (s pat : text) (pos p : nat) :
  find s pat pos = Some p ->
  pos <= p /\ p + length pat <= length s /\
  starts_with pat (skipn p s) = true /\
  forall q, pos <= q < p -> starts_with pat (skipn q s) = false.
Proof.
  unfold find. destruct (Nat.ltb_spec (length s) pos) as [|Hpos]; [discriminate|].
  intros H. apply find_in_Some in H as (Hle & Hin & Hp & Hmin).
  rewrite length_skipn in Hin.
  rewrite skipn_skipn in Hp. replace (p - pos + pos) with p in Hp by lia.
  assert (Hlen := starts_with_length _ _ Hp). rewrite length_skipn in Hlen.
  repeat split; try lia; auto.
  intros q Hq. specialize (Hmin q Hq).
  rewrite skipn_skipn in Hmin. now replace (q - pos + pos) with q in Hmin by lia.
Qed.

Lemma find_None (s pat : text) (pos : nat) :
  find s pat pos = None ->
  forall q, pos <= q <= length s -> starts_with pat (skipn q s) = false.
Proof.
  unfold find. destruct (Nat.ltb_spec (length s) pos) as [|Hpos]; [intros; lia|].
  intros H q Hq.
  pose proof (find_in_None _ _ _ H (q - pos)) as Hk.
  rewrite length_skipn, skipn_skipn in Hk.
  replace (q - pos + pos) with q in Hk by lia. apply Hk. lia.
Qed.

Lemma find_Some_occurs (s pat : text) (pos p : nat) :
  find s pat pos = Some p -> occurs pat s.
Proof.
  intros H. apply find_Some in H as (_ & _ & Hp & _).
  apply starts_with_inv in Hp as [rest Hrest].
  exists (firstn p s), rest. now rewrite <- Hrest, firstn_skipn.
Qed.

Lemma occurs_find (s pat : text) :
  occurs pat s -> exists p, find s pat 0 = Some p.
Proof.
  intros (before & after & ->).
  destruct (find (before ++ pat ++ after) pat 0) as [p|] eqn:E; [now exists p|].
  pose proof (find_None _ _ _ E (length before)) as H.
  rewrite skipn_app, skipn_all, Nat.sub_diag in H. simpl in H.
  rewrite starts_with_app in H.
  rewrite length_app in H. discriminate H. lia.
Qed.

Lemma find_replace_length (s pat str : text) (pos p : nat) :
  find s pat pos = Some p ->
  length (replace s p (length pat) str) + length pat = length s + length str.
Proof.
  intros H. apply find_Some in H as (_ & Hlen & _).
  unfold replace. rewrite !length_app, length_firstn, length_skipn. lia.
Qed.

Lemma find_intro (s pat : text) (pos p : nat) :
  pos <= p <= length s ->
  starts_with pat (skipn p s) = true ->
  (forall q, pos <= q < p -> starts_with pat (skipn q s) = false) ->
  find s pat pos = Some p.
Proof.
  intros Hp Hat Hmin.
  destruct (find s pat pos) as [q|] eqn:E.
  - apply find_Some in E as (Hq & Hlen & Hq_at & Hq_min).
    destruct (Nat.lt_trichotomy q p) as [Hlt|[->|Hgt]]; [|reflexivity|].
    + rewrite Hmin in Hq_at by lia. discriminate.
    + rewrite Hq_min in Hat by lia. discriminate.
  - rewrite (find_None _ _ _ E p) in Hat by lia. discriminate.
Qed.

(** Searching again from a position that [find] returned gives the same
    position. *)
Lemma find_again (s pat : text) (pos p : nat) :
  find s pat pos = Some p -> find s pat p = Some p.
Proof.
  intros H. apply find_Some in H as (Hle & Hlen & Hat & _).
  apply find_intro; [lia | exact Hat | intros; lia].
Qed.

(** A position that does not hold the pattern can be left out of the
    search. *)
Lemma find_skip (s pat : text) (pos : nat) :
  pos < length s ->
  starts_with pat (skipn pos s) = false ->
  find s pat pos = find s pat (S pos).
Proof.
  intros Hlt Hno. unfold find.
  destruct (Nat.ltb_spec (length s) pos); [lia|].
  destruct (Nat.ltb_spec (length s) (S pos)); [lia|].
  destruct (skipn pos s) as [|c rest] eqn:E.
  - apply (f_equal (@length _)) in E. rewrite length_skipn in E. simpl in E. lia.
  - replace (skipn (S pos) s) with rest.
    + simpl. simpl in Hno. now rewrite Hno.
    + change (S pos) with (1 + pos). rewrite <- skipn_skipn, E. reflexivity.
Qed.

Lemma starts_with_char (c : ascii) (s : text) (q : nat) :
  starts_with [c] (skipn q s) = true <-> nth_error s q = Some c.
Proof.
  revert q; induction s as [|a s IH]; intros [|q]; simpl;
    try (split; discriminate).
  - rewrite andb_true_r, Ascii.eqb_eq. split; [now intros -> | now intros [= ->]].
  - apply IH.
Qed.

(** The search for a single character returns its first occurrence at or
    after the starting position. *)
Lemma find_char_first_at (s : text) (c : ascii) (pos p : nat) :
  find s [c] pos = Some p -> first_at c s pos p.
Proof.
  intros H. apply find_Some in H as (Hle & _ & Hat & Hmin).
  split; [exact Hle|]. split; [now apply starts_with_char|].
  intros q Hq Hc. apply starts_with_char in Hc.
  rewrite Hmin in Hc by exact Hq. discriminate.
Qed.

Lemma not_occurs (pat s : text) : find s pat 0 = None -> ~ occurs pat s.
Proof.
  intros H Hocc. apply occurs_find in Hocc as [p Hp]. congruence.
Qed.

Lemma find_in_shift (pat s : text) (k i : nat) :
  find_in pat s (k + i) = option_map (Nat.add k) (find_in pat s i).
Proof.
  revert i; induction s as [|c s IH]; intros i; simpl.
  - now destruct (starts_with pat []).
  - destruct (starts_with pat (c :: s)); [reflexivity|].
    rewrite <- IH. f_equal. lia.
Qed.

(** A search from position [a + d] only looks at the part of the string
    from [a] on. *)
Lemma find_skipn (s pat : text) (a d : nat) :
  a <= length s ->
  find s pat (a + d) = option_map (Nat.add a) (find (skipn a s) pat d).
Proof.
  intros Ha. unfold find. rewrite length_skipn.
  destruct (Nat.ltb_spec (length s) (a + d));
    destruct (Nat.ltb_spec (length s - a) d); try lia; [reflexivity|].
  rewrite skipn_skipn, (Nat.add_comm d a).
  rewrite <- find_in_shift. f_equal. 
Qed.

(** Two strings with a common end give the same search results there,
    up to the shift of positions. *)
Lemma find_transfer (s s' pat : text) (a b d x : nat) :
  a <= length s -> b <= length s' -> skipn a s = skipn b s' ->
  find s pat (a + d) = Some x ->
  exists r, x = a + r /\ find s' pat (b + d) = Some (b + r).
Proof.
  intros Ha Hb Heq. rewrite (find_skipn s) by exact Ha.
  rewrite (find_skipn s') by exact Hb. rewrite <- Heq.
  destruct (find (skipn a s) pat d) as [r|]; [|discriminate].
  intros [= <-]. now exists r.
Qed.

End Find.

(** ** Replacing a part of a string *)

Section Splice.

Local Open Scope nat_scope.

Lemma firstn_replace (s str : text) (pos len : nat) :
  pos <= length s -> firstn pos (replace s pos len str) = firstn pos s.
Proof.
  intros H. unfold replace.
  rewrite firstn_app, length_firstn, Nat.min_l by exact H.
  rewrite Nat.sub_diag, firstn_firstn, Nat.min_id. simpl. apply app_nil_r.
Qed.

Lemma skipn_replace (s str : text) (pos len : nat) :
  pos <= length s ->
  skipn (pos + length str) (replace s pos len str) = skipn (pos + len) s.
Proof.
  intros H. unfold replace.
  rewrite skipn_app, length_firstn, Nat.min_l by exact H.
  rewrite (skipn_all2 (firstn pos s)) by (rewrite length_firstn; lia).
  replace (pos + length str - pos) with (length str) by lia.
  rewrite skipn_app, skipn_all, Nat.sub_diag. reflexivity.
Qed.

(** Text that lies before position [n] is the same in two strings with
    the same first [n] characters. *)
Lemma substr_below (a b : text) (n pos len : nat) :
  firstn n a = firstn n b -> pos + len <= n ->
  substr a pos len = substr b pos len.
Proof.
  intros Heq Hle. unfold substr.
  rewrite !firstn_skipn_comm.
  replace (firstn (pos + len) a) with (firstn (pos + len) (firstn n a))
    by (rewrite firstn_firstn; f_equal; lia).
  replace (firstn (pos + len) b) with (firstn (pos + len) (firstn n b))
    by (rewrite firstn_firstn; f_equal; lia).
  now rewrite Heq.
Qed.

End Splice.

(** ** The formatter terminates *)

Section Formatter.

Local Open Scope nat_scope.

(** Each iteration of the replacement loop consumes at least one character
    of what is left to search, so a fuel larger than that is enough. *)
Lemma replace_loop_terminates (from to : text) :
  from <> [] ->
  forall fuel format start_pos,
    length format - start_pos < fuel ->
    exists r, replace_loop fuel format from to start_pos = Some r.
Proof.
  intros Hfrom. induction fuel as [|fuel IH]; intros format start_pos Hlt; [lia|].
  simpl. destruct (find format from start_pos) as [p|] eqn:E; [|now eexists].
  apply IH.
  pose proof (find_replace_length _ _ to _ _ E) as Hlen.
  apply find_Some in E as (Hle & Hin & _).
  assert (0 < length from) by (destruct from; [congruence | simpl; lia]).
  lia.
Qed.

Lemma apply_replacements_total (repls : list (text * text)) :
  Forall (fun r => fst r <> []) repls ->
  forall format, exists r, apply_replacements repls format = Some r.
Proof.
  induction 1 as [|[from to] repls Hfrom _ IH]; intros format;
    cbn [apply_replacements].
  - now eexists.
  - destruct (replace_loop_terminates from to Hfrom (S (length format)) format 0)
      as [r ->]; [lia|].
    apply IH.
Qed.

(** [formatDate] returns for every date and every format. *)
Lemma formatDate_total (date : tm) (format : text) :
  exists r, formatDate date format = Some r.
Proof.
  apply apply_replacements_total.
  unfold replacements. repeat constructor; discriminate.
Qed.

End Formatter.

(** ** The calendar *)

Section Calendar.

Local Open Scope Z_scope.

Lemma is_leap_spec (y : Z) :
  is_leap y = true <->
  y mod 4 = 0 /\ (y mod 100 <> 0 \/ y mod 400 = 0).
Proof.
  unfold is_leap.
  rewrite andb_true_iff, orb_true_iff, negb_true_iff, !Z.eqb_eq, Z.eqb_neq.
  tauto.
Qed.

Lemma days_before_year_succ (y : Z) :
  days_before_year (y + 1) = days_before_year y + year_length y.
Proof.
  unfold days_before_year, year_length.
  replace (y + 1 - 1) with y by lia.
  destruct (is_leap y) eqn:E.
  - apply is_leap_spec in E. Z.div_mod_to_equations. lia.
  - assert (H : ~ (y mod 4 = 0 /\ (y mod 100 <> 0 \/ y mod 400 = 0)))
      by (rewrite <- is_leap_spec; congruence).
    Z.div_mod_to_equations. lia.
Qed.

Lemma days_before_year_mono (a b : Z) :
  a <= b -> days_before_year a <= days_before_year b.
Proof.
  unfold days_before_year. intros H. Z.div_mod_to_equations. lia.
Qed.

(** The estimate of [year_of_day] is off by at most one year, which its
    two comparisons repair. *)
Lemma year_of_day_spec (z : Z) :
  days_before_year (year_of_day z) <= z < days_before_year (year_of_day z + 1).
Proof.
  unfold year_of_day.
  set (g := 400 * z / 146097).
  assert (Hg : 146097 * g <= 400 * z < 146097 * g + 146097).
  { subst g. Z.div_mod_to_equations. lia. }
  clearbody g.
  destruct (Z.ltb_spec z (days_before_year g)) as [H1|H1].
  - replace (g - 1 + 1) with g by lia. split; [|lia].
    unfold days_before_year in *. Z.div_mod_to_equations. lia.
  - destruct (Z.leb_spec (days_before_year (g + 1)) z) as [H2|H2].
    + split; [lia|].
      unfold days_before_year in *. Z.div_mod_to_equations. lia.
    + lia.
Qed.

Lemma year_of_day_unique (y z : Z) :
  days_before_year y <= z < days_before_year (y + 1) -> year_of_day z = y.
Proof.
  intros Hy. pose proof (year_of_day_spec z) as Hs.
  destruct (Z.lt_trichotomy (year_of_day z) y) as [Hlt|[Heq|Hgt]]; [|exact Heq|].
  - pose proof (days_before_year_mono (year_of_day z + 1) y). lia.
  - pose proof (days_before_year_mono (y + 1) (year_of_day z)). lia.
Qed.

Ltac eval_days_before_month :=
  repeat match goal with
         | |- context [days_before_month ?l ?m] =>
             let v := eval vm_compute in (days_before_month l m) in
             change (days_before_month l m) with v
         | H : context [days_before_month ?l ?m] |- _ =>
             let v := eval vm_compute in (days_before_month l m) in
             change (days_before_month l m) with v in H
         end.

Ltac month_cases :=
  unfold month_of_yday, month_scan; cbn;
  repeat match goal with
         | |- context [?a <=? ?b] => destruct (Z.leb_spec a b)
         end;
  cbn in *; eval_days_before_month; try lia.

Lemma month_of_yday_range (leap : bool) (yd : Z) :
  0 <= month_of_yday leap yd <= 11.
Proof. destruct leap; month_cases. Qed.

Lemma month_of_yday_spec (leap : bool) (yd : Z) :
  0 <= yd < (if leap then 366 else 365) ->
  days_before_month leap (month_of_yday leap yd) <= yd
    < days_before_month leap (month_of_yday leap yd + 1).
Proof. intros H. destruct leap; month_cases. Qed.

Lemma month_of_yday_unique (leap : bool) (m yd : Z) :
  0 <= m <= 11 ->
  days_before_month leap m <= yd < days_before_month leap (m + 1) ->
  month_of_yday leap yd = m.
Proof.
  intros Hm.
  assert (Hc : m = 0 \/ m = 1 \/ m = 2 \/ m = 3 \/ m = 4 \/ m = 5 \/ m = 6 \/
               m = 7 \/ m = 8 \/ m = 9 \/ m = 10 \/ m = 11) by lia.
  destruct leap;
    repeat (destruct Hc as [->|Hc]); try subst m;
    cbn; intros H; month_cases.
Qed.

Lemma days_before_month_bounds (leap : bool) (m : Z) :
  0 <= m <= 11 ->
  0 <= days_before_month leap m < days_before_month leap (m + 1) /\
  days_before_month leap (m + 1) <= (if leap then 366 else 365).
Proof.
  intros Hm.
  assert (Hc : m = 0 \/ m = 1 \/ m = 2 \/ m = 3 \/ m = 4 \/ m = 5 \/ m = 6 \/
               m = 7 \/ m = 8 \/ m = 9 \/ m = 10 \/ m = 11) by lia.
  destruct leap;
    repeat (destruct Hc as [->|Hc]); try subst m;
    cbn; eval_days_before_month; lia.
Qed.

Lemma year_of_day_offset (z : Z) :
  0 <= z - days_before_year (year_of_day z)
    < (if is_leap (year_of_day z) then 366 else 365).
Proof.
  pose proof (year_of_day_spec z) as H.
  rewrite days_before_year_succ in H. unfold year_length in H. lia.
Qed.

(** Breaking a day number down and reading the fields back gives the
    same day number. *)
Lemma day_number_date_of_day (z : Z) : day_number (date_of_day z) = z.
Proof.
  unfold day_number, date_of_day; cbn [tm_year tm_mon tm_mday].
  pose proof (month_of_yday_range (is_leap (year_of_day z))
                (z - days_before_year (year_of_day z))) as Hm.
  rewrite Z.div_small, Z.mod_small by lia.
  replace (year_of_day z - 1900 + 1900 + 0) with (year_of_day z) by lia.
  unfold days_from_civil. lia.
Qed.

(** The date of every day number is a normalised date. *)
Lemma date_of_day_normalized (z : Z) : normalized (date_of_day z).
Proof.
  pose proof (year_of_day_offset z) as Hyd.
  pose proof (month_of_yday_range (is_leap (year_of_day z))
                (z - days_before_year (year_of_day z))) as Hm.
  pose proof (month_of_yday_spec _ _ Hyd) as Hs.
  unfold normalized, date_of_day; cbn [tm_year tm_mon tm_mday tm_wday tm_yday].
  replace (year_of_day z - 1900 + 1900) with (year_of_day z) by lia.
  unfold days_in_month, days_from_civil.
  repeat split; try lia.
  f_equal. lia.
Qed.

(** A normalised date is the date of its own day number. *)
Lemma date_of_day_day_number (t : tm) :
  normalized t -> date_of_day (day_number t) = t.
Proof.
  destruct t as [d m y w yd]. unfold normalized; cbn [tm_year tm_mon tm_mday tm_wday tm_yday].
  intros (Hm & Hd & Hyd & Hw).
  unfold day_number; cbn [tm_year tm_mon tm_mday].
  rewrite Z.div_small, Z.mod_small by lia.
  replace (y + 1900 + 0) with (y + 1900) by lia.
  unfold days_in_month in Hd.
  pose proof (days_before_month_bounds (is_leap (y + 1900)) m Hm) as Hb.
  assert (Hy : year_of_day (days_from_civil (y + 1900) m d) = y + 1900).
  { apply year_of_day_unique. rewrite days_before_year_succ.
    unfold days_from_civil, year_length. lia. }
  unfold date_of_day. rewrite Hy.
  assert (Hoff : days_from_civil (y + 1900) m d - days_before_year (y + 1900)
                 = days_before_month (is_leap (y + 1900)) m + (d - 1))
    by (unfold days_from_civil; lia).
  rewrite Hoff.
  rewrite (month_of_yday_unique (is_leap (y + 1900)) m) by lia.
  f_equal; lia.
Qed.

Lemma mktime_normalized (t : tm) : normalized (mktime t).
Proof. apply date_of_day_normalized. Qed.

Lemma mktime_fixed (t : tm) : normalized t -> mktime t = t.
Proof. apply date_of_day_day_number. Qed.

Lemma wrap_in_int (z : Z) : in_int z -> wrap z = z.
Proof.
  unfold in_int, INT_MIN, INT_MAX, wrap. intros H.
  rewrite Z.mod_small; lia.
Qed.

(** [addDays] moves the day number by [days], as long as the sum
    [tm_mday + days] is an [int]. *)
Lemma addDays_day_number (baseDate : tm) (days : Z) :
  in_int (tm_mday baseDate + days) ->
  addDays baseDate days = date_of_day (day_number baseDate + days).
Proof.
  intros H. unfold addDays, mktime, int_add. rewrite (wrap_in_int _ H).
  f_equal. unfold day_number, days_from_civil; cbn [tm_year tm_mon tm_mday]. lia.
Qed.

(** Adding an offset and then its negation normalises the base date, for
    any base date, when no [int] computation on the way overflows. *)
Lemma addDays_there_and_back (baseDate : tm) (offset : Z) :
  in_int (tm_mday baseDate + offset) ->
  in_int (- offset) ->
  in_int (tm_mday (addDays baseDate offset) - offset) ->
  addDays (addDays baseDate offset) (int_neg offset) = mktime baseDate.
Proof.
  intros H1 H2 H3. unfold int_neg. rewrite (wrap_in_int _ H2).
  rewrite (addDays_day_number (addDays baseDate offset)) by exact H3.
  rewrite (addDays_day_number baseDate) by exact H1.
  rewrite day_number_date_of_day. unfold mktime. f_equal. lia.
Qed.

Lemma int_sub_diag (z : Z) : int_sub z z = 0%Z.
Proof. unfold int_sub. now rewrite Z.sub_diag. Qed.

Lemma addDays_zero (baseDate : tm) :
  in_int (tm_mday baseDate) -> addDays baseDate 0 = mktime baseDate.
Proof.
  intros H. unfold addDays, int_add. rewrite Z.add_0_r, (wrap_in_int _ H).
  now destruct baseDate.
Qed.

Lemma normalized_mday (t : tm) : normalized t -> 1 <= tm_mday t <= 31.
Proof.
  intros (Hm & Hd & _). split; [lia|].
  apply Z.le_trans with (1 := proj2 Hd).
  set (m := tm_mon t) in *. clearbody m. unfold days_in_month.
  assert (Hc : m = 0 \/ m = 1 \/ m = 2 \/ m = 3 \/ m = 4 \/ m = 5 \/ m = 6 \/
               m = 7 \/ m = 8 \/ m = 9 \/ m = 10 \/ m = 11) by lia.
  destruct (is_leap (tm_year t + 1900));
    repeat (destruct Hc as [->|Hc]); try subst m;
    cbn; eval_days_before_month; lia.
Qed.

(** The round trip holds in particular for every offset at least 31 away
    from both ends of the range of [int]. *)
Lemma addDays_there_and_back_bounded (baseDate : tm) (offset : Z) :
  normalized baseDate ->
  INT_MIN + 32 <= offset <= INT_MAX - 31 ->
  addDays (addDays baseDate offset) (int_neg offset) = baseDate.
Proof.
  intros Hn Hoff.
  pose proof (normalized_mday _ Hn) as Hd.
  pose proof (normalized_mday _ (mktime_normalized
    {| tm_mday := int_add (tm_mday baseDate) offset;
       tm_mon := tm_mon baseDate; tm_year := tm_year baseDate;
       tm_wday := tm_wday baseDate; tm_yday := tm_yday baseDate |})) as Hd'.
  fold (addDays baseDate offset) in Hd'.
  unfold INT_MIN, INT_MAX in Hoff.
  rewrite addDays_there_and_back; [now apply mktime_fixed|..];
    unfold in_int, INT_MIN, INT_MAX; lia.
Qed.

End Calendar.

(** ** The scanning loop *)

Section Scanner.

Local Open Scope nat_scope.

Variables (startDate : tm) (startIndex : Z).

Lemma loop_body_no_marker (content : text) (searchPos : nat) :
  find content startMarker searchPos = None ->
  loop_body startDate startIndex content searchPos = Some no_marker.
Proof. intros H. unfold loop_body. now rewrite H. Qed.

(** The body is entered only when the marker is found. *)
Lemma loop_body_marker (content : text) (searchPos : nat) (o : step_outcome) :
  loop_body startDate startIndex content searchPos = Some o ->
  o <> no_marker ->
  exists p, find content startMarker searchPos = Some p.
Proof.
  unfold loop_body.
  destruct (find content startMarker searchPos) as [p|]; [now exists p|].
  intros [= <-] H. now elim H.
Qed.

Lemma loop_body_exit (content : text) (searchPos : nat) :
  loop_body startDate startIndex content searchPos = Some no_marker ->
  find content startMarker searchPos = None.
Proof.
  unfold loop_body.
  destruct (find content startMarker searchPos) as [p|]; [|reflexivity].
  repeat match goal with
         | |- context [match ?x with _ => _ end] => destruct x
         end; discriminate.
Qed.

(** After a [continue] on a malformed occurrence the next evaluation of
    the loop finds the same occurrence and takes the same [continue]. *)
Lemma skip_malformed_repeats (content : text) (searchPos p : nat) :
  loop_body startDate startIndex content searchPos = Some (skip_malformed p) ->
  loop_body startDate startIndex content p = Some (skip_malformed p).
Proof.
  unfold loop_body.
  destruct (find content startMarker searchPos) as [p0|] eqn:E0; [|discriminate].
  assert (Hagain := find_again _ _ _ _ E0).
  destruct (find content (lit ")") (p0 + length startMarker)) as [c|] eqn:E1.
  2:{ intros [= <-]. now rewrite Hagain, E1. }
  destruct (find content (lit ">") c) as [g|] eqn:E2.
  2:{ intros [= <-]. now rewrite Hagain, E1, E2. }
  destruct (find content (lit "<") (g + 1)) as [l|] eqn:E3.
  2:{ intros [= <-]. now rewrite Hagain, E1, E2, E3. }
  destruct (parse_args _ _); [|discriminate].
  destruct (formatDate _ _); discriminate.
Qed.

Lemma skip_malformed_diverges (content : text) (searchPos p : nat) :
  loop_body startDate startIndex content searchPos = Some (skip_malformed p) ->
  forall fuel modified out,
    scan fuel startDate startIndex content searchPos modified out = None.
Proof.
  intros H fuel. revert searchPos H.
  induction fuel as [|fuel IH]; intros searchPos H modified out; [reflexivity|].
  cbn [scan]. rewrite H.
  apply (IH p). now apply skip_malformed_repeats with searchPos.
Qed.

(** Once set, [modified] stays set. *)
Lemma scan_keeps_modified (fuel : nat) :
  forall content searchPos out content' modified' out',
    scan fuel startDate startIndex content searchPos true out
      = Some (content', modified', out') ->
    modified' = true.
Proof.
  induction fuel as [|fuel IH]; intros content searchPos out content' m' out';
    [discriminate|].
  cbn [scan].
  destruct (loop_body startDate startIndex content searchPos) as [[| | |]|];
    try discriminate; try apply IH.
  now intros [= _ <- _].
Qed.

(** [modified] is set exactly when the loop found the marker at least
    once, whatever became of that occurrence. *)
Lemma scan_modified_iff (fuel : nat) (content : text) (searchPos : nat)
    (out : list event) (content' : text) (modified' : bool) (out' : list event) :
  scan fuel startDate startIndex content searchPos false out
    = Some (content', modified', out') ->
  (modified' = true <-> exists p, find content startMarker searchPos = Some p).
Proof.
  destruct fuel as [|fuel]; [discriminate|].
  cbn [scan].
  destruct (loop_body startDate startIndex content searchPos) as [o|] eqn:E;
    [|discriminate].
  destruct o.
  - intros [= _ <- _]. apply loop_body_exit in E. rewrite E.
    split; [discriminate | intros [p [=]]].
  - intros H. apply scan_keeps_modified in H.
    split; [intros _|easy]. eapply loop_body_marker; [exact E|discriminate].
  - intros H. apply scan_keeps_modified in H.
    split; [intros _|easy]. eapply loop_body_marker; [exact E|discriminate].
  - intros H. apply scan_keeps_modified in H.
    split; [intros _|easy]. eapply loop_body_marker; [exact E|discriminate].
Qed.

(** More fuel does not change a result. *)
Lemma scan_fuel_mono (fuel : nat) :
  forall content searchPos modified out r,
    scan fuel startDate startIndex content searchPos modified out = Some r ->
    scan (S fuel) startDate startIndex content searchPos modified out = Some r.
Proof.
  induction fuel as [|fuel IH]; intros content searchPos modified out r;
    [discriminate|].
  intros H. cbn [scan] in H. change
    (match loop_body startDate startIndex content searchPos with
     | None => None
     | Some no_marker => Some (content, modified, out)
     | Some (skip_malformed searchPos) =>
         scan (S fuel) startDate startIndex content searchPos true out
     | Some (skip_invalid_day searchPos out') =>
         scan (S fuel) startDate startIndex content searchPos true (out ++ out')
     | Some (replaced content searchPos out') =>
         scan (S fuel) startDate startIndex content searchPos true (out ++ out')
     end = Some r).
  destruct (loop_body startDate startIndex content searchPos) as [[| | |]|];
    try exact H; try discriminate; now apply IH.
Qed.

Lemma delimited_from_weaken (content : text) (pos pos' : nat) :
  pos <= pos' -> delimited_from content pos -> delimited_from content pos'.
Proof. intros Hle H p Hp. apply H. lia. Qed.

(** After a replacement the occurrences still to be scanned are those of
    the old buffer after the target span, and they keep their
    delimiters. *)
Lemma delimited_from_replace (content newDateStr : text) (g l : nat) :
  g + 1 <= l <= length content ->
  delimited_from content l ->
  delimited_from (replace content (g + 1) (l - (g + 1)) newDateStr)
    (g + 1 + length newDateStr).
Proof.
  intros Hgl Hdel p' Hp' Hfind.
  set (content' := replace content (g + 1) (l - (g + 1)) newDateStr) in *.
  set (pos' := g + 1 + length newDateStr) in *.
  assert (Hsuffix : skipn pos' content' = skipn l content).
  { unfold content', pos'. rewrite skipn_replace by lia.
    f_equal. lia. }
  assert (Hlen : length content' = pos' + (length content - l)).
  { unfold content', pos', replace.
    rewrite !length_app, length_firstn, length_skipn. lia. }
  assert (Hpos' : pos' <= length content') by lia.
  assert (Hl : l <= length content) by lia.
  replace p' with (pos' + (p' - pos')) in Hfind at 1 by lia.
  destruct (find_transfer content' content startMarker pos' l _ _
              Hpos' Hl Hsuffix Hfind) as (r & Hr & Hold).
  assert (r = p' - pos') by lia. subst r.
  destruct (Hdel (l + (p' - pos'))) as (c & g2 & l2 & Hc & Hg & Hl2);
    [lia|exact Hold|].
  replace (l + (p' - pos') + length startMarker)
    with (l + (p' - pos' + length startMarker)) in Hc by lia.
  destruct (find_transfer content content' (lit ")") l pos' _ _
              Hl Hpos' (eq_sym Hsuffix) Hc) as (rc & -> & Hc').
  destruct (find_transfer content content' (lit ">") l pos' _ _
              Hl Hpos' (eq_sym Hsuffix) Hg) as (rg & -> & Hg').
  replace (l + rg + 1) with (l + (rg + 1)) in Hl2 by lia.
  destruct (find_transfer content content' (lit "<") l pos' _ _
              Hl Hpos' (eq_sym Hsuffix) Hl2) as (rl & -> & Hl').
  exists (pos' + rc), (pos' + rg), (pos' + rl).
  replace (p' + length startMarker)
    with (pos' + (p' - pos' + length startMarker)) by lia.
  replace (pos' + rg + 1) with (pos' + (rg + 1)) by lia.
  auto.
Qed.

(** The loop ends on every buffer whose marker occurrences all have
    their closing parenthesis and target span: each iteration then moves
    [searchPos] closer to the end of the buffer. *)
Lemma scan_terminates (fuel : nat) :
  forall content searchPos,
    delimited_from content searchPos ->
    length content - searchPos < fuel ->
    forall modified out,
    exists r,
      scan fuel startDate startIndex content searchPos modified out = Some r.
Proof.
  induction fuel as [|fuel IH]; intros content searchPos Hdel Hfuel modified out;
    [lia|].
  cbn [scan]. unfold loop_body.
  destruct (find content startMarker searchPos) as [p|] eqn:Hp; [|now eexists].
  pose proof (find_again _ _ _ _ Hp) as Hpp.
  apply find_Some in Hp as (Hle & Hplen & _ & _).
  destruct (Hdel p Hle Hpp) as (c & g & l & Hc & Hg & Hl).
  rewrite Hc, Hg, Hl.
  apply find_Some in Hc as (Hc_le & Hc_len & _ & _).
  apply find_Some in Hg as (Hg_le & Hg_len & _ & _).
  apply find_Some in Hl as (Hl_le & Hl_len & _ & _).
  change (length (lit ")")) with 1 in Hc_len.
  change (length (lit ">")) with 1 in Hg_len.
  change (length (lit "<")) with 1 in Hl_len.
  change (length startMarker) with 12 in *.
  destruct (parse_args _ startIndex) as [formatStr dayOffset out0|out0].
  - destruct (formatDate_total
                (addDays startDate (int_sub dayOffset startIndex))
                (trim_format formatStr)) as [newDateStr ->].
    apply IH.
    + apply delimited_from_replace; [lia|].
      apply delimited_from_weaken with searchPos; [lia|exact Hdel].
    + unfold replace. rewrite !length_app, length_firstn, length_skipn. lia.
  - apply IH; [|lia].
    apply delimited_from_weaken with searchPos; [lia|exact Hdel].
Qed.

End Scanner.

(** ** std::stoi on the day part *)

Section Stoi.

Lemma digit_not_space (c : ascii) : isdigit c = true -> isspace c = false.
Proof.
  unfold isdigit, isspace. cbv zeta.
  destruct (Nat.leb_spec 48 (nat_of_ascii c)); [|discriminate].
  intros _.
  destruct (Nat.eqb_spec (nat_of_ascii c) 32); [lia|].
  destruct (Nat.leb_spec (nat_of_ascii c) 13); [lia|].
  now rewrite andb_false_r.
Qed.

Lemma read_sign_digit (c : ascii) (s : text) :
  isdigit c = true -> read_sign (c :: s) = (false, c :: s).
Proof.
  destruct c as [[] [] [] [] [] [] [] []]; try discriminate; reflexivity.
Qed.

Lemma skip_space_app (ws s : text) :
  Forall (fun c => isspace c = true) ws ->
  skip_space (ws ++ s) = skip_space s.
Proof.
  induction 1 as [|c ws Hc _ IH]; [reflexivity|].
  cbn [skip_space app]. now rewrite Hc.
Qed.

Lemma leading_digits_app (ds rest : text) :
  Forall (fun c => isdigit c = true) ds ->
  (forall c rest', rest = c :: rest' -> isdigit c = false) ->
  leading_digits (ds ++ rest) = ds.
Proof.
  intros Hds Hrest.
  induction Hds as [|c ds Hc _ IH]; cbn [leading_digits app].
  - destruct rest as [|c rest']; cbn [leading_digits]; [reflexivity|].
    now rewrite (Hrest c rest' eq_refl).
  - now rewrite Hc, IH.
Qed.

End Stoi.

(** ** The sample dates *)

Ltac by_computation :=
  repeat split; vm_compute; (reflexivity || congruence).

Ltac assumptions :=
  repeat match goal with |- _ /\ _ => split end; assumption.

Lemma jan_15_2024_normalized : normalized jan_15_2024.
Proof. by_computation. Qed.

Lemma aug_26_2024_normalized : normalized aug_26_2024.
Proof. by_computation. Qed.

Lemma mar_15_2024_normalized : normalized mar_15_2024.
Proof. by_computation. Qed.

(** * The claims *)

(** C1 (fails on the code). The claim is that the scanning loop finishes
    on every buffer and moves past a malformed marker occurrence. On the
    buffer [DateReplace(], a marker with no closing parenthesis, it does
    not: the [continue] of line 229 leaves [searchPos] on the marker, the
    next search finds the same occurrence, and no number of iterations
    ends the loop, so [processFile] never returns either. The same
    happens at the [continue] of line 234 (no [>] after the closing
    parenthesis) and at that of line 238 (no [<] after the [>]). *)
Theorem malformed_marker_scan_never_finishes :
  forall fuel startDate startIndex,
    (forall modified out,
        scan fuel startDate startIndex (lit "DateReplace(") 0 modified out
        = None) /\
    (forall can_write,
        processFile fuel (lit ".html") (Some (lit "DateReplace(")) can_write
          startDate startIndex = None) /\
    (forall modified out,
        scan fuel startDate startIndex (lit "DateReplace(D, 3)") 0 modified out
        = None) /\
    (forall modified out,
        scan fuel startDate startIndex (lit "DateReplace(D, 3)>x") 0
          modified out
        = None).
Proof.
  intros fuel startDate startIndex.
  assert (H : forall modified out,
             scan fuel startDate startIndex (lit "DateReplace(") 0 modified out
             = None).
  { intros modified out.
    apply (skip_malformed_diverges startDate startIndex _ 0 0). reflexivity. }
  split; [exact H|]. split; [|split].
  - intros can_write. unfold processFile.
    change (negb (existsb (text_eqb (lit ".html")) validExtensions)) with false.
    cbv iota. now rewrite H.
  - intros modified out.
    apply (skip_malformed_diverges startDate startIndex _ 0 0). reflexivity.
  - intros modified out.
    apply (skip_malformed_diverges startDate startIndex _ 0 0). reflexivity.
Qed.

(** C2 (fails on the code). The claim is that no single-letter pass
    rewrites text that an earlier pass inserted, and that the template
    [YYYY-MM-DD] is never corrupted. For a date in March the [MM] pass
    inserts [March], and the later [M] pass replaces its capital [M] by
    the abbreviation [Mar]: Friday 03/15/2024 is rendered
    [2024-Mararch-15]. *)
Theorem formatDate_corrupts_inserted_month :
  normalized mar_15_2024 /\
  formatDate mar_15_2024 (lit "YYYY-MM-DD") = Some (lit "2024-Mararch-15").
Proof. split; [exact mar_15_2024_normalized | reflexivity]. Qed.

(** C4, as stated, fails at the offset [INT_MAX]: [tm_mday + offset] wraps
    around, and the date that comes back is not the base date. *)
Lemma addDays_round_trip_fails_at_INT_MAX :
  normalized jan_15_2024 /\ in_int INT_MAX /\
  addDays (addDays jan_15_2024 INT_MAX) (int_neg INT_MAX) <> jan_15_2024.
Proof.
  split; [exact jan_15_2024_normalized|].
  split; [by_computation|].
  vm_compute. discriminate.
Qed.

(** C4 (amended). For every normalised base date and every offset for
    which the [int] computations involved do not overflow (the sum
    [tm_mday + offset], the negation of the offset, and the sum of the
    resulting [tm_mday] and the negated offset), [addDays] with the offset
    followed by [addDays] with the negated offset returns the base date. *)
Theorem addDays_round_trip (baseDate : tm) (offset : Z) :
  normalized baseDate ->
  in_int (tm_mday baseDate + offset) ->
  in_int (- offset) ->
  in_int (tm_mday (addDays baseDate offset) - offset) ->
  addDays (addDays baseDate offset) (int_neg offset) = baseDate.
Proof.
  intros Hn H1 H2 H3.
  rewrite addDays_there_and_back by assumption.
  now apply mktime_fixed.
Qed.

Lemma addDays_round_trip_witness :
  normalized jan_15_2024 /\
  in_int (tm_mday jan_15_2024 + -1000) /\
  in_int (- -1000) /\
  in_int (tm_mday (addDays jan_15_2024 (-1000)) - -1000) /\
  addDays (addDays jan_15_2024 (-1000)) (int_neg (-1000)) = jan_15_2024.
Proof.
  assert (Hn : normalized jan_15_2024) by by_computation.
  assert (H1 : in_int (tm_mday jan_15_2024 + -1000)) by by_computation.
  assert (H2 : in_int (- -1000)) by by_computation.
  assert (H3 : in_int (tm_mday (addDays jan_15_2024 (-1000)) - -1000))
    by by_computation.
  exact (conj Hn (conj H1 (conj H2 (conj H3
           (addDays_round_trip jan_15_2024 (-1000) Hn H1 H2 H3))))).
Defined.

(** C3, as stated, fails: the only marker in this buffer has an
    unparsable day number and is skipped, no replacement is made, and the
    file is written all the same, with its content unchanged. *)
Lemma file_rewritten_without_replacement :
  let content := lit "<i a=DateReplace(D, abc)>x</i>" in
  exists r,
    processFile 2 (lit ".html") (Some content) true jan_15_2024 0 = Some r /\
    written r = Some content /\
    printed r = [debug_day_number (lit "D, abc") (lit " abc");
                 warning_invalid_day] /\
    existsb is_spliced (printed r) = false.
Proof. eexists. repeat split; reflexivity. Qed.

(** C3 (amended). A file is written only if the scan of its content ran
    to completion and found the marker text [DateReplace(] in it at least
    once; what is written is the buffer the scan ended with. Whether any
    of the occurrences found was replaced plays no part. *)
Theorem file_written_only_if_marker_found
    (fuel : nat) (extension : text) (fileIn : option text) (can_write : bool)
    (startDate : tm) (startIndex : Z) (r : file_result) (content' : text) :
  processFile fuel extension fileIn can_write startDate startIndex = Some r ->
  written r = Some content' ->
  exists content,
    fileIn = Some content /\
    occurs startMarker content /\
    scan fuel startDate startIndex content 0 false []
      = Some (content', true, printed r).
Proof.
  unfold processFile.
  destruct (negb (existsb (text_eqb extension) validExtensions));
    [intros [= <-]; discriminate|].
  destruct fileIn as [content|]; [|intros [= <-]; discriminate].
  destruct (scan fuel startDate startIndex content 0 false [])
    as [[[c m] out]|] eqn:E; [|discriminate].
  destruct m; [|intros [= <-]; discriminate].
  destruct can_write; intros [= <-]; [|discriminate].
  cbn [written printed]. intros [= <-].
  exists content. split; [reflexivity|]. split; [|exact E].
  pose proof (scan_modified_iff _ _ _ _ _ _ _ _ _ E) as [Hfound _].
  destruct (Hfound eq_refl) as [p Hp].
  now apply find_Some_occurs in Hp.
Qed.

Lemma file_written_only_if_marker_found_witness :
  let fileIn := Some (lit "<b x=DateReplace(Y)>?</b>") in
  let content' := lit "<b x=DateReplace(Y)>2024</b>" in
  let r := {| written := Some content';
              printed := [spliced 20 21 (lit "2024")] |} in
  processFile 2 (lit ".html") fileIn true aug_26_2024 0 = Some r /\
  written r = Some content' /\
  exists content,
    fileIn = Some content /\
    occurs startMarker content /\
    scan 2 aug_26_2024 0 content 0 false [] = Some (content', true, printed r).
Proof.
  intros fileIn content' r.
  assert (H1 : processFile 2 (lit ".html") fileIn true aug_26_2024 0 = Some r)
    by reflexivity.
  assert (H2 : written r = Some content') by reflexivity.
  exact (conj H1 (conj H2
           (file_written_only_if_marker_found 2 (lit ".html") fileIn true
              aug_26_2024 0 r content' H1 H2))).
Defined.

(** C5. A buffer in which the marker text [DateReplace(] does not occur
    comes out of the scan unchanged and flagged as not modified, after
    one evaluation of the loop condition, and [processFile] does not
    write the file. *)
Theorem buffer_without_marker_unchanged (content : text) :
  ~ occurs startMarker content ->
  forall fuel startDate startIndex,
    scan (S fuel) startDate startIndex content 0 false []
      = Some (content, false, []) /\
    forall extension can_write,
      processFile (S fuel) extension (Some content) can_write
        startDate startIndex
      = Some {| written := None; printed := [] |}.
Proof.
  intros Hno fuel startDate startIndex.
  assert (Hfind : find content startMarker 0 = None).
  { destruct (find content startMarker 0) as [p|] eqn:E; [|reflexivity].
    elim Hno. now apply find_Some_occurs in E. }
  assert (Hscan : scan (S fuel) startDate startIndex content 0 false []
                  = Some (content, false, [])).
  { cbn [scan]. now rewrite loop_body_no_marker. }
  split; [exact Hscan|].
  intros extension can_write. unfold processFile. rewrite Hscan.
  now destruct (negb (existsb (text_eqb extension) validExtensions)).
Qed.

Lemma buffer_without_marker_unchanged_witness :
  let content := lit "<p>Date Replace (D, 3)</p>" in
  ~ occurs startMarker content /\
  scan 1 jan_15_2024 1 content 0 false [] = Some (content, false, []) /\
  forall extension can_write,
    processFile 1 extension (Some content) can_write jan_15_2024 1
    = Some {| written := None; printed := [] |}.
Proof.
  intros content.
  assert (H : ~ occurs startMarker content)
    by (apply not_occurs; vm_compute; reflexivity).
  exact (conj H (buffer_without_marker_unchanged content H 0 jan_15_2024 1)).
Defined.

(** C6. Base date Monday 01/15/2024 and [startIndex] 1. The arguments
    [MM DD, YYYY, 5] are split at the last comma into the format
    [MM DD, YYYY] and the day number 5; the offset is 5 - 1 = 4; the
    target date is Friday 01/19/2024; it is rendered [January 19, 2024],
    which the scan puts in the place of the text after the directive. *)
Theorem directive_with_day_5_from_jan_15 :
  let content := lit "<span data-d=DateReplace(MM DD, YYYY, 5)>old</span>" in
  let target :=
    {| tm_mday := 19; tm_mon := 0; tm_year := 124; tm_wday := 5;
       tm_yday := 18 |} in
  mktime jan_15_2024 = jan_15_2024 /\
  rfind (lit "MM DD, YYYY, 5") "," = Some 11%nat /\
  parse_args (lit "MM DD, YYYY, 5") 1
    = args_ok (lit "MM DD, YYYY") 5
        [debug_day_number (lit "MM DD, YYYY, 5") (lit " 5")] /\
  int_sub 5 1 = 4 /\
  addDays jan_15_2024 4 = target /\
  formatDate target (trim_format (lit "MM DD, YYYY"))
    = Some (lit "January 19, 2024") /\
  scan 2 jan_15_2024 1 content 0 false []
    = Some (lit "<span data-d=DateReplace(MM DD, YYYY, 5)>January 19, 2024</span>",
            true,
            [debug_day_number (lit "MM DD, YYYY, 5") (lit " 5");
             spliced 41 44 (lit "January 19, 2024")]).
Proof. repeat split; reflexivity. Qed.

(** C7. When the argument text of a directive holds no comma, the whole
    argument text is the format and the day number is [startIndex]; the
    offset is then 0 and the date that is formatted and spliced in is
    the base date, as [mktime] normalises it (the base date itself when
    it is normalised already). *)
Theorem directive_without_comma_uses_base_date
    (startDate : tm) (startIndex : Z) (content : text)
    (searchPos p c g l : nat) :
  in_int (tm_mday startDate) ->
  find content startMarker searchPos = Some p ->
  find content (lit ")") (p + length startMarker) = Some c ->
  find content (lit ">") c = Some g ->
  find content (lit "<") (g + 1) = Some l ->
  let argsStr :=
    substr content (p + length startMarker) (c - (p + length startMarker)) in
  rfind argsStr "," = None ->
  parse_args argsStr startIndex = args_ok argsStr startIndex [] /\
  int_sub startIndex startIndex = 0%Z /\
  addDays startDate (int_sub startIndex startIndex) = mktime startDate /\
  (normalized startDate ->
   addDays startDate (int_sub startIndex startIndex) = startDate) /\
  exists newDateStr,
    formatDate (mktime startDate) (trim_format argsStr) = Some newDateStr /\
    loop_body startDate startIndex content searchPos
    = Some (replaced
              (replace content (g + 1) (l - (g + 1)) newDateStr)
              (g + 1 + length newDateStr)
              [spliced (g + 1) l newDateStr]).
Proof.
  intros Hday Hp Hc Hg Hl argsStr Hcomma.
  assert (Hparse : parse_args argsStr startIndex = args_ok argsStr startIndex [])
    by (unfold parse_args; now rewrite Hcomma).
  assert (Hadd : addDays startDate (int_sub startIndex startIndex)
                 = mktime startDate)
    by (rewrite int_sub_diag; now apply addDays_zero).
  split; [exact Hparse|]. split; [apply int_sub_diag|]. split; [exact Hadd|].
  split; [intros Hn; rewrite Hadd; now apply mktime_fixed|].
  destruct (formatDate_total (mktime startDate) (trim_format argsStr))
    as [newDateStr Hfmt].
  exists newDateStr. split; [exact Hfmt|].
  unfold loop_body. rewrite Hp, Hc, Hg, Hl.
  fold argsStr. rewrite Hparse, Hadd, Hfmt. reflexivity.
Qed.

Lemma directive_without_comma_uses_base_date_witness :
  let content := lit "<b x=DateReplace(Y)>?</b>" in
  let argsStr := substr content (5 + length startMarker)
                   (18 - (5 + length startMarker)) in
  (in_int (tm_mday aug_26_2024) /\
   find content startMarker 0 = Some 5%nat /\
   find content (lit ")") (5 + length startMarker) = Some 18%nat /\
   find content (lit ">") 18 = Some 19%nat /\
   find content (lit "<") (19 + 1) = Some 21%nat /\
   argsStr = lit "Y" /\
   rfind argsStr "," = None) /\
  (parse_args argsStr 0 = args_ok argsStr 0 [] /\
   int_sub 0 0 = 0%Z /\
   addDays aug_26_2024 (int_sub 0 0) = mktime aug_26_2024 /\
   (normalized aug_26_2024 -> addDays aug_26_2024 (int_sub 0 0) = aug_26_2024) /\
   exists newDateStr,
     formatDate (mktime aug_26_2024) (trim_format argsStr) = Some newDateStr /\
     loop_body aug_26_2024 0 content 0
     = Some (replaced
               (replace content (19 + 1) (21 - (19 + 1)) newDateStr)
               (19 + 1 + length newDateStr)
               [spliced (19 + 1) 21 newDateStr])) /\
  formatDate (mktime aug_26_2024) (trim_format (lit "Y")) = Some (lit "2024") /\
  scan 2 aug_26_2024 0 content 0 false []
  = Some (lit "<b x=DateReplace(Y)>2024</b>", true,
          [spliced 20 21 (lit "2024")]).
Proof.
  intros content argsStr.
  assert (H0 : in_int (tm_mday aug_26_2024)) by by_computation.
  assert (H1 : find content startMarker 0 = Some 5%nat) by reflexivity.
  assert (H2 : find content (lit ")") (5 + length startMarker) = Some 18%nat)
    by reflexivity.
  assert (H3 : find content (lit ">") 18 = Some 19%nat) by reflexivity.
  assert (H4 : find content (lit "<") (19 + 1) = Some 21%nat) by reflexivity.
  assert (H5 : argsStr = lit "Y") by reflexivity.
  assert (H6 : rfind argsStr "," = None) by reflexivity.
  split; [assumptions|].
  split; [|split; reflexivity].
  exact (directive_without_comma_uses_base_date aug_26_2024 0 content
           0 5 18 19 21 H0 H1 H2 H3 H4 H6).
Defined.

(** C8. When the argument text holds a comma and [std::stoi] throws on
    the text after the last comma, the warning is printed, the buffer is
    left as it is, [searchPos] moves to the closing parenthesis of the
    occurrence (from where the search for the marker is the same as from
    the character after it), and the loop goes on from there: the rest of
    the scan is the scan of the same buffer from that position. *)
Theorem invalid_day_number_is_skipped
    (startDate : tm) (startIndex : Z) (content : text)
    (searchPos p c g l k : nat) :
  find content startMarker searchPos = Some p ->
  find content (lit ")") (p + length startMarker) = Some c ->
  find content (lit ">") c = Some g ->
  find content (lit "<") (g + 1) = Some l ->
  let argsStr :=
    substr content (p + length startMarker) (c - (p + length startMarker)) in
  let dayOffsetStr := substr_from argsStr (k + 1) in
  rfind argsStr "," = Some k ->
  (forall v, stoi dayOffsetStr <> Parsed v) ->
  let out' := [debug_day_number argsStr dayOffsetStr; warning_invalid_day] in
  loop_body startDate startIndex content searchPos
    = Some (skip_invalid_day c out') /\
  (p < c)%nat /\
  find content startMarker c = find content startMarker (S c) /\
  forall fuel modified out,
    scan (S fuel) startDate startIndex content searchPos modified out
    = scan fuel startDate startIndex content c true (out ++ out').
Proof.
  intros Hp Hc Hg Hl argsStr dayOffsetStr Hcomma Hstoi out'.
  assert (Hbody : loop_body startDate startIndex content searchPos
                  = Some (skip_invalid_day c out')).
  { unfold loop_body. rewrite Hp, Hc, Hg, Hl. fold argsStr.
    unfold parse_args. rewrite Hcomma. fold dayOffsetStr.
    destruct (stoi dayOffsetStr) as [v| |] eqn:E; try reflexivity.
    now elim (Hstoi v). }
  split; [exact Hbody|].
  apply find_Some in Hc as (Hle & Hlen & Hat & _).
  split; [change (length startMarker) with 12%nat in Hle; lia|].
  split.
  - apply find_skip; [change (length (lit ")")) with 1%nat in Hlen; lia|].
    apply starts_with_inv in Hat as [rest ->]. reflexivity.
  - intros fuel modified out. cbn [scan]. now rewrite Hbody.
Qed.

Lemma invalid_day_number_is_skipped_witness :
  let content := lit "<i a=DateReplace(D, abc)>x</i><i a=DateReplace(D, 3)>y</i>" in
  let argsStr := substr content (5 + length startMarker)
                   (23 - (5 + length startMarker)) in
  let dayOffsetStr := substr_from argsStr (1 + 1) in
  let out' := [debug_day_number argsStr dayOffsetStr; warning_invalid_day] in
  (find content startMarker 0 = Some 5%nat /\
   find content (lit ")") (5 + length startMarker) = Some 23%nat /\
   find content (lit ">") 23 = Some 24%nat /\
   find content (lit "<") (24 + 1) = Some 26%nat /\
   argsStr = lit "D, abc" /\
   dayOffsetStr = lit " abc" /\
   rfind argsStr "," = Some 1%nat /\
   (forall v, stoi dayOffsetStr <> Parsed v)) /\
  (loop_body jan_15_2024 1 content 0 = Some (skip_invalid_day 23 out') /\
   (5 < 23)%nat /\
   find content startMarker 23 = find content startMarker 24 /\
   forall fuel modified out,
     scan (S fuel) jan_15_2024 1 content 0 modified out
     = scan fuel jan_15_2024 1 content 23 true (out ++ out')) /\
  scan 3 jan_15_2024 1 content 0 false []
  = Some (lit "<i a=DateReplace(D, abc)>x</i><i a=DateReplace(D, 3)>17</i>",
          true,
          out' ++ [debug_day_number (lit "D, 3") (lit " 3");
                   spliced 53 54 (lit "17")]).
Proof.
  intros content argsStr dayOffsetStr out'.
  assert (H1 : find content startMarker 0 = Some 5%nat) by reflexivity.
  assert (H2 : find content (lit ")") (5 + length startMarker) = Some 23%nat)
    by reflexivity.
  assert (H3 : find content (lit ">") 23 = Some 24%nat) by reflexivity.
  assert (H4 : find content (lit "<") (24 + 1) = Some 26%nat) by reflexivity.
  assert (H5 : argsStr = lit "D, abc") by reflexivity.
  assert (H6 : dayOffsetStr = lit " abc") by reflexivity.
  assert (H7 : rfind argsStr "," = Some 1%nat) by reflexivity.
  assert (H8 : forall v, stoi dayOffsetStr <> Parsed v)
    by (intros v; vm_compute; discriminate).
  split; [assumptions|].
  split; [|reflexivity].
  exact (invalid_day_number_is_skipped jan_15_2024 1 content
           0 5 23 24 26 1 H1 H2 H3 H4 H7 H8).
Defined.

(** C9. A replacement changes the buffer between two positions only: the
    character after the first [>] at or after the closing parenthesis of
    the directive, and the first [<] at or after that character. The text
    before (which holds the marker, the arguments and the closing
    parenthesis) and the text from that [<] on are the same after it;
    the new text stands between them, and [searchPos] is placed at its
    end. *)
Theorem splice_rewrites_only_target_span
    (startDate : tm) (startIndex : Z) (content : text) (searchPos : nat)
    (content' : text) (searchPos' : nat) (out : list event) :
  loop_body startDate startIndex content searchPos
    = Some (replaced content' searchPos' out) ->
  exists p c g l newDateStr,
    find content startMarker searchPos = Some p /\
    first_at ")" content (p + length startMarker) c /\
    first_at ">" content c g /\
    first_at "<" content (g + 1) l /\
    content' = firstn (g + 1) content ++ newDateStr ++ skipn l content /\
    firstn (g + 1) content' = firstn (g + 1) content /\
    skipn (g + 1 + length newDateStr) content' = skipn l content /\
    substr content' p (length startMarker) = startMarker /\
    substr content' p (c + 1 - p) = substr content p (c + 1 - p) /\
    searchPos' = (g + 1 + length newDateStr)%nat /\
    In (spliced (g + 1) l newDateStr) out.
Proof.
  unfold loop_body.
  destruct (find content startMarker searchPos) as [p|] eqn:Hp; [|discriminate].
  destruct (find content (lit ")") (p + length startMarker)) as [c|] eqn:Hc;
    [|discriminate].
  destruct (find content (lit ">") c) as [g|] eqn:Hg; [|discriminate].
  destruct (find content (lit "<") (g + 1)) as [l|] eqn:Hl; [|discriminate].
  destruct (parse_args _ startIndex) as [formatStr dayOffset out0|];
    [|discriminate].
  destruct (formatDate _ _) as [newDateStr|]; [|discriminate].
  intros [= <- <- <-].
  exists p, c, g, l, newDateStr.
  pose proof (find_char_first_at _ _ _ _ Hc) as Fc.
  pose proof (find_char_first_at _ _ _ _ Hg) as Fg.
  pose proof (find_char_first_at _ _ _ _ Hl) as Fl.
  apply find_Some in Hp as (_ & _ & Hp_at & _).
  apply find_Some in Hc as (Hc_le & _ & _ & _).
  apply find_Some in Hg as (Hg_le & Hg_len & _ & _).
  apply find_Some in Hl as (Hl_le & _ & _ & _).
  change (length (lit ">")) with 1%nat in Hg_len.
  assert (Hfirst : firstn (g + 1)
                     (replace content (g + 1) (l - (g + 1)) newDateStr)
                   = firstn (g + 1) content)
    by (apply firstn_replace; lia).
  split; [reflexivity|]. split; [exact Fc|]. split; [exact Fg|].
  split; [exact Fl|].
  split; [|split; [exact Hfirst|split; [|split; [|split; [|split]]]]].
  - unfold replace. now replace (g + 1 + (l - (g + 1)))%nat with l by lia.
  - rewrite skipn_replace by lia.
    now replace (g + 1 + (l - (g + 1)))%nat with l by lia.
  - rewrite (substr_below _ content (g + 1)); [|exact Hfirst|lia].
    apply starts_with_inv in Hp_at as [rest Hrest].
    unfold substr.
    rewrite Hrest, firstn_app, firstn_all, Nat.sub_diag, firstn_O.
    apply app_nil_r.
  - apply substr_below with (n := (g + 1)%nat); [exact Hfirst|lia].
  - reflexivity.
  - apply in_or_app. right. now left.
Qed.

Lemma splice_rewrites_only_target_span_witness :
  let content := lit "<b x=DateReplace(Y)>?</b>" in
  let content' := lit "<b x=DateReplace(Y)>2024</b>" in
  loop_body aug_26_2024 0 content 0
    = Some (replaced content' 24 [spliced 20 21 (lit "2024")]) /\
  exists p c g l newDateStr,
    find content startMarker 0 = Some p /\
    first_at ")" content (p + length startMarker) c /\
    first_at ">" content c g /\
    first_at "<" content (g + 1) l /\
    content' = firstn (g + 1) content ++ newDateStr ++ skipn l content /\
    firstn (g + 1) content' = firstn (g + 1) content /\
    skipn (g + 1 + length newDateStr) content' = skipn l content /\
    substr content' p (length startMarker) = startMarker /\
    substr content' p (c + 1 - p) = substr content p (c + 1 - p) /\
    24%nat = (g + 1 + length newDateStr)%nat /\
    In (spliced (g + 1) l newDateStr) [spliced 20 21 (lit "2024")].
Proof.
  intros content content'.
  assert (H : loop_body aug_26_2024 0 content 0
              = Some (replaced content' 24 [spliced 20 21 (lit "2024")]))
    by reflexivity.
  exact (conj H
           (splice_rewrites_only_target_span aug_26_2024 0 content 0
              content' 24 [spliced 20 21 (lit "2024")] H)).
Defined.

(** C10, as stated, fails when the leading integer of the day part does
    not fit an [int]: [std::stoi] throws [std::out_of_range], which the
    handler catches like any other exception, and the warning path is
    taken although the day part begins with digits. *)
Lemma out_of_range_day_number_is_rejected :
  forallb isspace (lit " ") = true /\
  forallb isdigit (lit "2147483648") = true /\
  stoi (lit " " ++ lit "2147483648") = out_of_range /\
  parse_args (lit "D, 2147483648") 0
  = args_invalid_day
      [debug_day_number (lit "D, 2147483648") (lit " 2147483648");
       warning_invalid_day].
Proof. repeat split; reflexivity. Qed.

(** C10 (amended). When the day part is white space, then at most one
    sign, then a non-empty run of decimal digits, then anything that does
    not go on with a digit, and the signed value of the digits fits an
    [int], [std::stoi] returns that value and ignores what follows the
    digits, so the directive is parsed with that day number and no
    warning is printed. *)
Theorem leading_integer_is_parsed (ws sign ds rest : text) :
  Forall (fun c => isspace c = true) ws ->
  In sign [[]; lit "+"; lit "-"] ->
  ds <> [] ->
  Forall (fun c => isdigit c = true) ds ->
  (forall c rest', rest = c :: rest' -> isdigit c = false) ->
  let v :=
    if text_eqb sign (lit "-") then (- decimal_value ds)%Z
    else decimal_value ds in
  in_int v ->
  stoi (ws ++ sign ++ ds ++ rest) = Parsed v /\
  forall argsStr startIndex k,
    rfind argsStr "," = Some k ->
    substr_from argsStr (k + 1) = ws ++ sign ++ ds ++ rest ->
    parse_args argsStr startIndex
    = args_ok (substr argsStr 0 k) v
        [debug_day_number argsStr (ws ++ sign ++ ds ++ rest)].
Proof.
  intros Hws Hsign Hne Hds Hrest v Hv.
  assert (Hstoi : stoi (ws ++ sign ++ ds ++ rest) = Parsed v).
  { destruct ds as [|d ds']; [congruence|].
    assert (Hd : isdigit d = true) by now inversion Hds.
    assert (Hlead : leading_digits ((d :: ds') ++ rest) = d :: ds')
      by now apply leading_digits_app.
    assert (Hrange : (INT_MIN <=? v) && (v <=? INT_MAX) = true).
    { destruct Hv. apply andb_true_intro. split; now apply Z.leb_le. }
    unfold stoi. rewrite skip_space_app by exact Hws.
    subst v. destruct Hsign as [<-|[<-|[<-|[]]]].
    - change (text_eqb [] (lit "-")) with false in *. cbv iota in Hrange |- *.
      change ([] ++ (d :: ds') ++ rest) with (d :: ds' ++ rest).
      cbn [skip_space]. rewrite (digit_not_space d Hd).
      rewrite (read_sign_digit d _ Hd).
      change (d :: ds' ++ rest) with ((d :: ds') ++ rest). rewrite Hlead.
      now rewrite Hrange.
    - change (text_eqb (lit "+") (lit "-")) with false in *.
      cbv iota in Hrange |- *.
      change (skip_space (lit "+" ++ (d :: ds') ++ rest))
        with (lit "+" ++ (d :: ds') ++ rest).
      change (read_sign (lit "+" ++ (d :: ds') ++ rest))
        with (false, (d :: ds') ++ rest).
      cbv beta iota. rewrite Hlead. now rewrite Hrange.
    - change (text_eqb (lit "-") (lit "-")) with true in *.
      cbv iota in Hrange |- *.
      change (skip_space (lit "-" ++ (d :: ds') ++ rest))
        with (lit "-" ++ (d :: ds') ++ rest).
      change (read_sign (lit "-" ++ (d :: ds') ++ rest))
        with (true, (d :: ds') ++ rest).
      cbv beta iota. rewrite Hlead. now rewrite Hrange. }
  split; [exact Hstoi|].
  intros argsStr startIndex k Hk Hday.
  unfold parse_args. rewrite Hk, Hday, Hstoi. reflexivity.
Qed.

Lemma leading_integer_is_parsed_witness :
  let ws := lit " " in
  let sign : text := [] in
  let ds := lit "5" in
  let rest := lit "abc" in
  (Forall (fun c => isspace c = true) ws /\
   In sign [[]; lit "+"; lit "-"] /\
   ds <> [] /\
   Forall (fun c => isdigit c = true) ds /\
   (forall c rest', rest = c :: rest' -> isdigit c = false) /\
   in_int (decimal_value ds)) /\
  ws ++ sign ++ ds ++ rest = lit " 5abc" /\
  stoi (ws ++ sign ++ ds ++ rest) = Parsed 5 /\
  forall argsStr startIndex k,
    rfind argsStr "," = Some k ->
    substr_from argsStr (k + 1) = ws ++ sign ++ ds ++ rest ->
    parse_args argsStr startIndex
    = args_ok (substr argsStr 0 k) 5
        [debug_day_number argsStr (ws ++ sign ++ ds ++ rest)].
Proof.
  intros ws sign ds rest.
  assert (H1 : Forall (fun c => isspace c = true) ws) by (repeat constructor).
  assert (H2 : In sign [[]; lit "+"; lit "-"]) by (now left).
  assert (H3 : ds <> []) by discriminate.
  assert (H4 : Forall (fun c => isdigit c = true) ds) by (repeat constructor).
  assert (H5 : forall c rest', rest = c :: rest' -> isdigit c = false)
    by (intros c rest' [= <- _]; reflexivity).
  assert (H6 : in_int (decimal_value ds)) by by_computation.
  split; [assumptions|].
  split; [reflexivity|].
  exact (leading_integer_is_parsed ws sign ds rest H1 H2 H3 H4 H5 H6).
Defined.

(** * Further properties of the date engine *)

Section MoreCalendar.

Local Open Scope Z_scope.









(** X4. Different offsets give different dates: when neither sum
    overflows, [addDays] returns the same date for two offsets only if
    the offsets are equal. *)
Theorem addDays_offset_injective (baseDate : tm) (a b : Z) :
  in_int (tm_mday baseDate + a) ->
  in_int (tm_mday baseDate + b) ->
  addDays baseDate a = addDays baseDate b ->
  a = b.
Proof.
  intros Ha Hb H.
  rewrite (addDays_day_number _ _ Ha), (addDays_day_number _ _ Hb) in H.
  apply (f_equal day_number) in H.
  rewrite !day_number_date_of_day in H. lia.
Qed.

Lemma addDays_offset_injective_witness :
  in_int (tm_mday jan_15_2024 + 4) /\
  in_int (tm_mday jan_15_2024 + (2 + 2)) /\
  addDays jan_15_2024 4 = addDays jan_15_2024 (2 + 2) /\
  4 = 2 + 2.
Proof.
  assert (H1 : in_int (tm_mday jan_15_2024 + 4)) by by_computation.
  assert (H2 : in_int (tm_mday jan_15_2024 + (2 + 2))) by by_computation.
  assert (H3 : addDays jan_15_2024 4 = addDays jan_15_2024 (2 + 2))
    by reflexivity.
  exact (conj H1 (conj H2 (conj H3
           (addDays_offset_injective jan_15_2024 4 (2 + 2) H1 H2 H3)))).
Defined.

End MoreCalendar.

(** * Further properties of the formatter *)

Section MoreFormatter.

Local Open Scope nat_scope.

(** X5. Every pass of [formatDate] ends, also when the text it inserts
    contains the token it replaces (the pass for [M] inserts [Mar] or
    [May]): the search resumes after the inserted text, so a pass makes
    at most one replacement per character of the template, and
    [formatDate] returns for every date and template. *)
Theorem formatDate_passes_terminate
    (date : tm) (format from to : text) :
  from <> [] ->
  (exists r, replace_loop (S (length format)) format from to 0 = Some r) /\
  (exists r, formatDate date format = Some r).
Proof.
  intros Hfrom. split.
  - apply replace_loop_terminates; [exact Hfrom|lia].
  - apply apply_replacements_total.
    unfold replacements. repeat constructor; discriminate.
Qed.

Lemma formatDate_passes_terminate_witness :
  lit "M" <> [] /\
  (exists r, replace_loop (S (length (lit "MMM"))) (lit "MMM") (lit "M")
               (lit "May") 0 = Some r) /\
  (exists r, formatDate mar_15_2024 (lit "MMM") = Some r).
Proof.
  assert (H : lit "M" <> []) by discriminate.
  exact (conj H (formatDate_passes_terminate mar_15_2024 (lit "MMM")
                   (lit "M") (lit "May") H)).
Defined.

Lemma replace_all_skip (from to : text) (skip : nat) (s : text) :
  replace_all from to skip s = replace_all from to 0 (skipn skip s).
Proof.
  revert s; induction skip as [|k IH]; intros s; [reflexivity|].
  destruct s as [|c rest]; [reflexivity|]. simpl. apply IH.
Qed.

Lemma replace_all_no_match (from to s : text) :
  (forall k, k <= length s -> starts_with from (skipn k s) = false) ->
  replace_all from to 0 s = s.
Proof.
  induction s as [|c rest IH]; intros H; [reflexivity|].
  pose proof (H 0 (Nat.le_0_l _)) as H0.
  change (skipn 0 (c :: rest)) with (c :: rest) in H0.
  cbn [replace_all]. rewrite H0. f_equal.
  apply IH. intros k Hk. apply (H (S k)). simpl. lia.
Qed.

Lemma replace_all_first_match (from to s : text) (k : nat) :
  from <> [] ->
  (forall q, q < k -> starts_with from (skipn q s) = false) ->
  starts_with from (skipn k s) = true ->
  replace_all from to 0 s
  = firstn k s ++ to ++ replace_all from to 0 (skipn (k + length from) s).
Proof.
  intros Hfrom. revert s; induction k as [|k IH]; intros s Hmin Hat.
  - simpl in Hat. destruct s as [|c rest].
    + destruct from; [congruence|discriminate].
    + cbn [replace_all]. rewrite Hat. cbn [firstn app]. f_equal.
      rewrite replace_all_skip. f_equal.
      destruct from as [|f from']; [congruence|].
      simpl. now rewrite Nat.sub_0_r.
  - destruct s as [|c rest].
    + simpl in Hat. destruct from; [congruence|discriminate].
    + pose proof (Hmin 0 (Nat.lt_0_succ _)) as H0.
      change (skipn 0 (c :: rest)) with (c :: rest) in H0.
      cbn [replace_all]. rewrite H0.
      cbn [firstn app plus skipn]. f_equal.
      apply IH; [|exact Hat].
      intros q Hq. apply (Hmin (S q)). lia.
Qed.

Lemma firstn_split (s : text) (pos p : nat) :
  pos <= p ->
  firstn pos s ++ firstn (p - pos) (skipn pos s) = firstn p s.
Proof.
  intros H. rewrite firstn_skipn_comm.
  replace (pos + (p - pos)) with p by lia.
  replace (firstn pos s) with (firstn pos (firstn p s))
    by (rewrite firstn_firstn; f_equal; lia).
  apply firstn_skipn.
Qed.

Lemma replace_loop_replace_all (from to : text) :
  from <> [] ->
  forall fuel format start_pos,
    start_pos <= length format ->
    length format - start_pos < fuel ->
    replace_loop fuel format from to start_pos
    = Some (firstn start_pos format
              ++ replace_all from to 0 (skipn start_pos format)).
Proof.
  intros Hfrom. induction fuel as [|fuel IH]; intros format pos Hpos Hfuel; [lia|].
  cbn [replace_loop].
  destruct (find format from pos) as [p|] eqn:E.
  - pose proof (find_replace_length _ _ to _ _ E) as Hlen.
    apply find_Some in E as (Hle & Hin & Hat & Hmin).
    assert (0 < length from) by (destruct from; [congruence | simpl; lia]).
    rewrite IH by lia. f_equal.
    assert (Hp : p <= length format) by lia.
    assert (Hfirst : firstn (p + length to)
                       (replace format p (length from) to)
                     = firstn p format ++ to).
    { unfold replace. rewrite app_assoc, firstn_app.
      rewrite length_app, length_firstn, Nat.min_l by exact Hp.
      rewrite Nat.sub_diag, firstn_O, app_nil_r.
      apply firstn_all2. rewrite length_app, length_firstn. lia. }
    rewrite Hfirst, skipn_replace by exact Hp.
    rewrite (replace_all_first_match from to (skipn pos format) (p - pos) Hfrom).
    + rewrite skipn_skipn.
      replace (p - pos + length from + pos) with (p + length from) by lia.
      rewrite <- app_assoc. rewrite (app_assoc (firstn pos format)).
      f_equal. symmetry. apply firstn_split. lia.
    + intros q Hq. rewrite skipn_skipn. apply Hmin. lia.
    + rewrite skipn_skipn. now replace (p - pos + pos) with p by lia.
  - f_equal. rewrite replace_all_no_match.
    + symmetry. apply firstn_skipn.
    + intros k Hk. rewrite length_skipn in Hk. rewrite skipn_skipn.
      apply (find_None _ _ _ E). lia.
Qed.

Lemma apply_replacements_fold (repls : list (text * text)) :
  Forall (fun r => fst r <> []) repls ->
  forall format,
    apply_replacements repls format
    = Some (fold_left (fun f r => replace_all (fst r) (snd r) 0 f)
              repls format).
Proof.
  induction 1 as [|[from to] repls Hfrom _ IH]; intros format;
    cbn [apply_replacements fold_left fst snd]; [reflexivity|].
  rewrite (replace_loop_replace_all from to Hfrom) by lia.
  cbn [firstn skipn app]. apply IH.
Qed.

(** X6. What [formatDate] returns is the template after eight passes in
    the order of the [replacements] vector, where each pass replaces, from
    left to right, every occurrence of its token that starts outside the
    occurrence replaced before it, and never looks again at the text it
    has inserted itself. *)
Theorem formatDate_is_eight_passes (date : tm) (format : text) :
  formatDate date format
  = Some (fold_left (fun f r => replace_all (fst r) (snd r) 0 f)
            (replacements date) format).
Proof.
  apply apply_replacements_fold.
  unfold replacements. repeat constructor; discriminate.
Qed.

Lemma starts_with_head (c : ascii) (pat s : text) (k : nat) :
  ~ In c s -> starts_with (c :: pat) (skipn k s) = false.
Proof.
  intros Hc. destruct (starts_with (c :: pat) (skipn k s)) eqn:E; [|reflexivity].
  apply starts_with_inv in E as [rest Hrest].
  elim Hc. rewrite <- (firstn_skipn k s), Hrest.
  apply in_or_app. right. now left.
Qed.

(** X7. A template that holds none of the capital letters [Y], [M], [N]
    and [D] is returned as it is, for every date: the tokens are matched
    with their case, and all other characters pass through. *)
Theorem formatDate_without_token_letters (date : tm) (format : text) :
  ~ In "Y"%char format -> ~ In "M"%char format ->
  ~ In "N"%char format -> ~ In "D"%char format ->
  formatDate date format = Some format.
Proof.
  intros HY HM HN HD. unfold formatDate.
  rewrite apply_replacements_fold
    by (unfold replacements; repeat constructor; discriminate).
  unfold replacements. cbn [fold_left fst snd].
  repeat rewrite replace_all_no_match;
    try reflexivity; intros k _; now apply starts_with_head.
Qed.

Lemma formatDate_without_token_letters_witness :
  let format := lit "week of dd/mm (yyyy), day n" in
  ~ In "Y"%char format /\ ~ In "M"%char format /\
  ~ In "N"%char format /\ ~ In "D"%char format /\
  formatDate mar_15_2024 format = Some format.
Proof.
  intros format.
  assert (no : forall c, existsb (Ascii.eqb c) format = false -> ~ In c format).
  { intros c H Hin.
    assert (existsb (Ascii.eqb c) format = true)
      by (apply existsb_exists; exists c; split;
          [exact Hin | apply Ascii.eqb_refl]).
    congruence. }
  assert (HY : ~ In "Y"%char format) by (apply no; reflexivity).
  assert (HM : ~ In "M"%char format) by (apply no; reflexivity).
  assert (HN : ~ In "N"%char format) by (apply no; reflexivity).
  assert (HD : ~ In "D"%char format) by (apply no; reflexivity).
  exact (conj HY (conj HM (conj HN (conj HD
           (formatDate_without_token_letters mar_15_2024 format
              HY HM HN HD))))).
Defined.

End MoreFormatter.

(** * Further properties of the directive parser *)

Section Trim.

Local Open Scope nat_scope.

Variable set : text.

Let trimmed (c : ascii) : bool := mem_char c set.

Lemma find_first_not_of_in_None (s : text) (i : nat) :
  forallb trimmed s = true -> find_first_not_of_in set s i = None.
Proof.
  revert i; induction s as [|c s IH]; intros i H; [reflexivity|].
  simpl in H. apply andb_prop in H as [Hc Hs]. simpl.
  unfold trimmed in Hc. rewrite Hc. now apply IH.
Qed.

Lemma find_first_not_of_in_spec (s : text) (i : nat) :
  match find_first_not_of_in set s i with
  | None => forallb trimmed s = true
  | Some k =>
      exists pre c rest,
        s = pre ++ c :: rest /\ forallb trimmed pre = true /\
        trimmed c = false /\ k = i + length pre
  end.
Proof.
  revert i; induction s as [|c s IH]; intros i; [reflexivity|].
  simpl. destruct (mem_char c set) eqn:Hc.
  - specialize (IH (S i)).
    destruct (find_first_not_of_in set s (S i)) as [k|].
    + destruct IH as (pre & c' & rest & -> & Hpre & Hc' & ->).
      exists (c :: pre), c', rest. simpl. unfold trimmed at 1. rewrite Hc.
      repeat split; auto; lia.
    + unfold trimmed at 1. now rewrite Hc.
  - exists [], c, s. simpl. repeat split; auto; lia.
Qed.

Lemma find_last_not_of_in_app (s : text) (c : ascii) (i : nat)
    (last : option nat) :
  find_last_not_of_in set (s ++ [c]) i last
  = if trimmed c then find_last_not_of_in set s i last
    else Some (i + length s).
Proof.
  revert i last; induction s as [|a s IH]; intros i last; simpl.
  - unfold trimmed. destruct (mem_char c set); [reflexivity|f_equal; lia].
  - rewrite IH. destruct (trimmed c); [reflexivity|f_equal; lia].
Qed.

Lemma find_last_not_of_spec (s : text) :
  match find_last_not_of s set with
  | None => forallb trimmed s = true
  | Some k =>
      exists init c post,
        s = init ++ c :: post /\ trimmed c = false /\
        forallb trimmed post = true /\ k = length init
  end.
Proof.
  unfold find_last_not_of.
  induction s as [|c s IH] using rev_ind; [reflexivity|].
  rewrite find_last_not_of_in_app. destruct (trimmed c) eqn:Hc.
  - destruct (find_last_not_of_in set s 0 None) as [k|].
    + destruct IH as (init & c' & post & -> & Hc' & Hpost & ->).
      exists init, c', (post ++ [c]). rewrite <- app_assoc. simpl.
      repeat split; auto. rewrite forallb_app, Hpost. simpl. now rewrite Hc.
    + rewrite forallb_app, IH. simpl. now rewrite Hc.
  - exists s, c, []. repeat split; auto.
Qed.

End Trim.

Section TrimFormat.

Local Open Scope nat_scope.

Let trimmed (c : ascii) : bool := mem_char c trim_chars.

Lemma firstn_through (init post : text) (c : ascii) :
  firstn (S (length init)) (init ++ c :: post) = init ++ [c].
Proof. induction init as [|a init IH]; simpl; [reflexivity|]. now f_equal. Qed.

(** The shape of the result of [trim_format]: what is cut off at both
    ends, and what the ends of the result are. *)
Lemma trim_format_shape (formatStr : text) :
  exists pre post,
    formatStr = pre ++ trim_format formatStr ++ post /\
    forallb trimmed pre = true /\
    forallb trimmed post = true /\
    (trim_format formatStr = [] \/
     exists c init c',
       trim_format formatStr = init ++ [c'] /\
       hd_error (trim_format formatStr) = Some c /\
       trimmed c = false /\ trimmed c' = false).
Proof.
  unfold trim_format.
  pose proof (find_first_not_of_in_spec trim_chars formatStr 0) as Hfirst.
  fold (find_first_not_of formatStr trim_chars) in Hfirst.
  destruct (find_first_not_of formatStr trim_chars) as [k|].
  - destruct Hfirst as (pre & c & rest & -> & Hpre & Hc & ->).
    cbn [erase_prefix plus].
    rewrite skipn_app, skipn_all, Nat.sub_diag. cbn [skipn app].
    pose proof (find_last_not_of_spec trim_chars (c :: rest)) as Hlast.
    destruct (find_last_not_of (c :: rest) trim_chars) as [j|].
    + destruct Hlast as (init & c' & post & Heq & Hc' & Hpost & ->).
      cbn [erase_after]. rewrite Heq.
      rewrite firstn_through.
      exists pre, post. split; [now rewrite <- !app_assoc|].
      split; [exact Hpre|]. split; [exact Hpost|]. right.
      exists c, init, c'. split; [reflexivity|]. split; [|auto].
      destruct init as [|a init]; simpl in *; congruence.
    + cbn [forallb] in Hlast. apply andb_prop in Hlast as [Hl _].
      unfold trimmed in Hc. congruence.
  - cbn [erase_prefix]. exists formatStr, [].
    split; [now rewrite app_nil_r|]. split; [exact Hfirst|].
    split; [reflexivity|]. now left.
Qed.

End TrimFormat.

Lemma trim_format_fixed (t : text) (c c' : ascii) (init : text) :
  hd_error t = Some c -> t = init ++ [c'] ->
  mem_char c trim_chars = false -> mem_char c' trim_chars = false ->
  trim_format t = t.
Proof.
  intros Hhd Hlast Hc Hc'. unfold trim_format.
  destruct t as [|a rest]; [discriminate|]. injection Hhd as ->.
  assert (Hfirst : find_first_not_of (c :: rest) trim_chars = Some 0%nat).
  { unfold find_first_not_of. cbn [find_first_not_of_in]. now rewrite Hc. }
  rewrite Hfirst. cbn [erase_prefix skipn]. rewrite Hlast.
  unfold find_last_not_of. rewrite find_last_not_of_in_app, Hc'.
  cbn [erase_after plus].
  change (init ++ [c']) with (init ++ c' :: []).
  apply firstn_through.
Qed.

(** X8. Trimming the format only cuts at the two ends: the format is the
    trimmed text between a run of trimmed characters before it and a run
    of trimmed characters after it, and the trimmed text neither begins
    nor ends with a trimmed character (space, tab, line feed, carriage
    return, double quote, underscore, parenthesis). Trimmed characters
    inside the format stay. *)
Theorem trim_format_cuts_both_ends (formatStr : text) :
  exists pre post,
    formatStr = pre ++ trim_format formatStr ++ post /\
    forallb (fun c => mem_char c trim_chars) pre = true /\
    forallb (fun c => mem_char c trim_chars) post = true /\
    (forall c rest,
        trim_format formatStr = c :: rest -> mem_char c trim_chars = false) /\
    (forall init c,
        trim_format formatStr = init ++ [c] -> mem_char c trim_chars = false).
Proof.
  destruct (trim_format_shape formatStr)
    as (pre & post & Heq & Hpre & Hpost & Hends).
  exists pre, post. split; [exact Heq|]. split; [exact Hpre|].
  split; [exact Hpost|].
  destruct Hends as [Hnil|(c & init & c' & Hlast & Hhd & Hc & Hc')].
  - rewrite Hnil. split; [discriminate|].
    intros init c H. now destruct init.
  - split.
    + intros c0 rest H. rewrite H in Hhd. now injection Hhd as ->.
    + intros init0 c0 H. rewrite H in Hlast.
      apply app_inj_tail in Hlast as [_ ->]. exact Hc'.
Qed.

(** X9. Trimming is idempotent: a format that has been trimmed is not
    changed by trimming it again. *)
Theorem trim_format_idempotent (formatStr : text) :
  trim_format (trim_format formatStr) = trim_format formatStr.
Proof.
  destruct (trim_format_shape formatStr)
    as (_ & _ & _ & _ & _ & [Hnil|(c & init & c' & Hlast & Hhd & Hc & Hc')]).
  - rewrite Hnil. reflexivity.
  - now apply trim_format_fixed with c c' init.
Qed.

(** X10. A format made of trimmed characters only, the empty format
    included, is trimmed to the empty string: the first search gives
    [npos] and the whole string is erased, and in the second line
    [npos + 1] wraps around to 0. *)
Theorem trim_format_of_trimmed_characters (formatStr : text) :
  forallb (fun c => mem_char c trim_chars) formatStr = true ->
  trim_format formatStr = [].
Proof.
  intros H. unfold trim_format, find_first_not_of.
  now rewrite (find_first_not_of_in_None trim_chars formatStr 0 H).
Qed.

Lemma trim_format_of_trimmed_characters_witness :
  let formatStr := [" "; "034"; "_"; "("; ")"; "009"; " "]%char in
  forallb (fun c => mem_char c trim_chars) formatStr = true /\
  trim_format formatStr = [].
Proof.
  intros formatStr.
  assert (H : forallb (fun c => mem_char c trim_chars) formatStr = true)
    by reflexivity.
  exact (conj H (trim_format_of_trimmed_characters formatStr H)).
Defined.

Section LastComma.

Local Open Scope nat_scope.

Lemma rfind_in_app (c : ascii) (a b : text) (i : nat) (last : option nat) :
  rfind_in c (a ++ b) i last = rfind_in c b (i + length a) (rfind_in c a i last).
Proof.
  revert i last; induction a as [|x a IH]; intros i last; simpl.
  - now rewrite Nat.add_0_r.
  - rewrite IH. f_equal. lia.
Qed.

Lemma rfind_in_absent (c : ascii) (b : text) (i : nat) (last : option nat) :
  ~ In c b -> rfind_in c b i last = last.
Proof.
  revert i; induction b as [|x b IH]; intros i H; [reflexivity|].
  simpl. destruct (Ascii.eqb_spec x c) as [->|_].
  - elim H. now left.
  - apply IH. intros Hin. apply H. now right.
Qed.

Lemma rfind_last (c : ascii) (a b : text) :
  ~ In c b -> rfind (a ++ c :: b) c = Some (length a).
Proof.
  intros H. unfold rfind. rewrite rfind_in_app. cbn [rfind_in].
  rewrite Ascii.eqb_refl. now rewrite rfind_in_absent.
Qed.

Lemma substr_before (a b : text) : substr (a ++ b) 0 (length a) = a.
Proof.
  unfold substr. cbn [skipn].
  now rewrite firstn_app, firstn_all, Nat.sub_diag, firstn_O, app_nil_r.
Qed.

Lemma substr_from_after (a b : text) (c : ascii) :
  substr_from (a ++ c :: b) (length a + 1) = b.
Proof.
  unfold substr_from. rewrite skipn_app, skipn_all2 by lia.
  replace (length a + 1 - length a) with 1 by lia. reflexivity.
Qed.

Lemma space_is_not_comma (b : text) :
  Forall (fun c => isspace c = true) b -> ~ In ","%char b.
Proof.
  intros H Hin. rewrite Forall_forall in H. specialize (H _ Hin). discriminate.
Qed.

Lemma stoi_of_spaces (b : text) :
  Forall (fun c => isspace c = true) b -> stoi b = invalid_argument.
Proof.
  intros H. unfold stoi.
  rewrite <- (app_nil_r b), (skip_space_app b [] H). reflexivity.
Qed.

End LastComma.

(** X11. The arguments of a directive are split at their last comma: with
    no comma in what follows it, the text before that comma is the
    format, commas included, and the text after it is what [std::stoi]
    reads as the day number. *)
Theorem parse_args_splits_at_last_comma
    (formatPart dayPart : text) (startIndex : Z) :
  ~ In ","%char dayPart ->
  let argsStr := formatPart ++ ","%char :: dayPart in
  parse_args argsStr startIndex
  = match stoi dayPart with
    | Parsed dayOffset =>
        args_ok formatPart dayOffset [debug_day_number argsStr dayPart]
    | _ =>
        args_invalid_day
          [debug_day_number argsStr dayPart; warning_invalid_day]
    end.
Proof.
  intros Hno argsStr. unfold parse_args, argsStr.
  rewrite (rfind_last _ _ _ Hno), substr_before, substr_from_after.
  reflexivity.
Qed.

Lemma parse_args_splits_at_last_comma_witness :
  ~ In ","%char (lit " 12") /\
  parse_args (lit "NN, M D, Y" ++ ","%char :: lit " 12") 0
  = args_ok (lit "NN, M D, Y") 12
      [debug_day_number (lit "NN, M D, Y, 12") (lit " 12")].
Proof.
  assert (H : ~ In ","%char (lit " 12"))
    by (intros [H|[H|[H|[]]]]; discriminate H).
  exact (conj H (parse_args_splits_at_last_comma
                   (lit "NN, M D, Y") (lit " 12") 0 H)).
Defined.

(** X12. A directive whose arguments end with a comma, or with a comma
    followed by white space only, has no day number: [std::stoi] throws
    on the empty or blank text and the occurrence takes the warning path;
    the day number does not default to [startIndex] as it does when
    there is no comma at all. *)
Theorem parse_args_blank_day_part
    (formatPart dayPart : text) (startIndex : Z) :
  Forall (fun c => isspace c = true) dayPart ->
  let argsStr := formatPart ++ ","%char :: dayPart in
  parse_args argsStr startIndex
  = args_invalid_day [debug_day_number argsStr dayPart; warning_invalid_day].
Proof.
  intros Hws argsStr. unfold parse_args, argsStr.
  rewrite (rfind_last _ _ _ (space_is_not_comma _ Hws)).
  rewrite substr_from_after, (stoi_of_spaces _ Hws). reflexivity.
Qed.

Lemma parse_args_blank_day_part_witness :
  Forall (fun c => isspace c = true) (lit " ") /\
  parse_args (lit "MM DD" ++ ","%char :: lit " ") 1
  = args_invalid_day
      [debug_day_number (lit "MM DD, ") (lit " "); warning_invalid_day].
Proof.
  assert (H : Forall (fun c => isspace c = true) (lit " "))
    by (repeat constructor).
  exact (conj H (parse_args_blank_day_part (lit "MM DD") (lit " ") 1 H)).
Defined.

(** * Further properties of the scanning loop *)

Section MoreScanner.

Local Open Scope nat_scope.

Variables (startDate : tm) (startIndex : Z).

Lemma delimitedb_sound (content : text) (p : nat) :
  delimitedb content p = true -> delimited content p.
Proof.
  unfold delimitedb, delimited.
  destruct (find content (lit ")") (p + length startMarker)) as [c|] eqn:Hc;
    [|discriminate].
  destruct (find content (lit ">") c) as [g|] eqn:Hg; [|discriminate].
  destruct (find content (lit "<") (g + 1)) as [l|] eqn:Hl; [|discriminate].
  intros _. now exists c, g, l.
Qed.

Lemma all_delimited_sound (content : text) :
  all_delimited content = true -> delimited_from content 0.
Proof.
  unfold all_delimited. rewrite forallb_forall.
  intros H p _ Hp.
  assert (Hin : In p (seq 0 (S (length content)))).
  { apply in_seq. apply find_Some in Hp. lia. }
  specialize (H p Hin). rewrite Hp, Nat.eqb_refl in H.
  now apply delimitedb_sound.
Qed.

Lemma undelimited_is_skipped (content : text) (searchPos p : nat) :
  find content startMarker searchPos = Some p ->
  ~ delimited content p ->
  loop_body startDate startIndex content searchPos = Some (skip_malformed p).
Proof.
  intros Hp Hno. unfold loop_body. rewrite Hp.
  destruct (find content (lit ")") (p + length startMarker)) as [c|] eqn:Hc;
    [|reflexivity].
  destruct (find content (lit ">") c) as [g|] eqn:Hg; [|reflexivity].
  destruct (find content (lit "<") (g + 1)) as [l|] eqn:Hl; [|reflexivity].
  elim Hno. now exists c, g, l.
Qed.

Lemma loop_body_same_search (content : text) (a b : nat) :
  find content startMarker a = find content startMarker b ->
  loop_body startDate startIndex content a
  = loop_body startDate startIndex content b.
Proof. intros H. unfold loop_body. now rewrite H. Qed.

Lemma scan_same_search (content : text) (a b : nat) :
  find content startMarker a = find content startMarker b ->
  forall fuel modified out,
    scan fuel startDate startIndex content a modified out
    = scan fuel startDate startIndex content b modified out.
Proof.
  intros H [|fuel] modified out; [reflexivity|].
  cbn [scan]. now rewrite (loop_body_same_search _ _ _ H).
Qed.

(** The text before [searchPos] is out of reach of the loop. *)
Lemma scan_keeps_prefix (fuel : nat) :
  forall content searchPos modified out content' modified' out',
    scan fuel startDate startIndex content searchPos modified out
      = Some (content', modified', out') ->
    firstn searchPos content' = firstn searchPos content.
Proof.
  induction fuel as [|fuel IH];
    intros content pos m out content' m' out'; [discriminate|].
  cbn [scan]. unfold loop_body.
  destruct (find content startMarker pos) as [p|] eqn:Hp;
    [|now intros [= <- _ _]].
  apply find_Some in Hp as (Hle & _ & _ & _).
  assert (shrink : forall n (t : text),
             pos <= n -> firstn n content' = firstn n t ->
             firstn pos content' = firstn pos t).
  { intros n t Hn Heq.
    replace (firstn pos content') with (firstn pos (firstn n content'))
      by (rewrite firstn_firstn; f_equal; lia).
    rewrite Heq, firstn_firstn. f_equal. lia. }
  destruct (find content (lit ")") (p + length startMarker)) as [c|] eqn:Hc.
  2:{ intros H. apply IH in H. now apply shrink with p. }
  apply find_Some in Hc as (Hc_le & _ & _ & _).
  destruct (find content (lit ">") c) as [g|] eqn:Hg.
  2:{ intros H. apply IH in H. now apply shrink with p. }
  apply find_Some in Hg as (Hg_le & Hg_len & _ & _).
  change (length (lit ">")) with 1 in Hg_len.
  destruct (find content (lit "<") (g + 1)) as [l|] eqn:Hl.
  2:{ intros H. apply IH in H. now apply shrink with p. }
  destruct (parse_args _ startIndex) as [formatStr dayOffset out0|out0].
  - destruct (formatDate _ _) as [newDateStr|]; [|discriminate].
    intros H. apply IH in H.
    apply shrink with (n := g + 1 + length newDateStr) in H; [|lia].
    rewrite H.
    transitivity
      (firstn pos
         (firstn (g + 1) (replace content (g + 1) (l - (g + 1)) newDateStr))).
    { rewrite firstn_firstn. f_equal. lia. }
    rewrite firstn_replace by lia. rewrite firstn_firstn. f_equal. lia.
  - intros H. apply IH in H. apply shrink with c; [lia|exact H].
Qed.

End MoreScanner.

(** X13. The scanning loop ends on every buffer in which each marker
    occurrence has a [)] after it, a [>] after that and a [<] after that:
    every iteration then moves [searchPos] closer to the end of the
    buffer, so the loop makes at most one iteration per character, plus
    the last test. *)
Theorem scan_terminates_on_delimited_buffer
    (startDate : tm) (startIndex : Z) (content : text) :
  delimited_from content 0 ->
  forall fuel, (length content < fuel)%nat ->
  exists content' modified out,
    scan fuel startDate startIndex content 0 false []
    = Some (content', modified, out).
Proof.
  intros Hdel fuel Hfuel.
  destruct (scan_terminates startDate startIndex fuel content 0 Hdel
              ltac:(lia) false []) as [[[content' modified] out] H].
  now exists content', modified, out.
Qed.

Lemma scan_terminates_on_delimited_buffer_witness :
  let content :=
    lit "<i a=DateReplace(D, x)>?</i> DateReplace(M D, 9)<b>?</b><u>DateReplace()</u><br>" in
  delimited_from content 0 /\
  (length content < 100)%nat /\
  exists content' modified out,
    scan 100 jan_15_2024 1 content 0 false [] = Some (content', modified, out).
Proof.
  intros content.
  assert (H1 : delimited_from content 0)
    by (apply all_delimited_sound; vm_compute; reflexivity).
  assert (H2 : (length content < 100)%nat) by (vm_compute; lia).
  exact (conj H1 (conj H2
           (scan_terminates_on_delimited_buffer jan_15_2024 1 content H1
              100 H2))).
Defined.

(** X14. On any buffer, when the marker occurrence that the search finds
    lacks one of its three delimiters, the loop never ends: the
    [continue] leaves [searchPos] where the marker was found. *)
Theorem scan_never_ends_at_undelimited_marker
    (startDate : tm) (startIndex : Z) (content : text) (searchPos p : nat) :
  find content startMarker searchPos = Some p ->
  ~ delimited content p ->
  forall fuel modified out,
    scan fuel startDate startIndex content searchPos modified out = None.
Proof.
  intros Hp Hno.
  apply skip_malformed_diverges with p.
  now apply undelimited_is_skipped.
Qed.

Lemma scan_never_ends_at_undelimited_marker_witness :
  let content := lit "<p>x</p><i a=DateReplace(D, 2)>tail" in
  find content startMarker 0 = Some 13%nat /\
  ~ delimited content 13 /\
  forall fuel modified out,
    scan fuel aug_26_2024 0 content 0 modified out = None.
Proof.
  intros content.
  assert (H1 : find content startMarker 0 = Some 13%nat) by reflexivity.
  assert (H2 : ~ delimited content 13).
  { intros (c & g & l & Hc & Hg & Hl).
    vm_compute in Hc. injection Hc as <-.
    vm_compute in Hg. injection Hg as <-.
    vm_compute in Hl. discriminate. }
  exact (conj H1 (conj H2
           (scan_never_ends_at_undelimited_marker aug_26_2024 0 content 0 13
              H1 H2))).
Defined.

(** X15. The loop never changes the text in front of [searchPos], and
    when it starts on a marker it changes nothing up to and including
    the closing parenthesis of that marker: replacements only touch what
    follows. *)
Theorem scan_keeps_text_before_directive
    (startDate : tm) (startIndex : Z) (fuel : nat)
    (content : text) (searchPos : nat) (modified : bool) (out : list event)
    (content' : text) (modified' : bool) (out' : list event) :
  scan fuel startDate startIndex content searchPos modified out
    = Some (content', modified', out') ->
  firstn searchPos content' = firstn searchPos content /\
  forall p c,
    find content startMarker searchPos = Some p ->
    find content (lit ")") (p + length startMarker) = Some c ->
    firstn (c + 1) content' = firstn (c + 1) content.
Proof.
  intros H. split; [now apply scan_keeps_prefix in H|].
  intros p c Hp Hc.
  assert (Hdel : delimited content p).
  { destruct (find content (lit ">") c) as [g|] eqn:Hg.
    - destruct (find content (lit "<") (g + 1)%nat) as [l|] eqn:Hl;
        [now exists c, g, l|].
      rewrite (skip_malformed_diverges startDate startIndex content
                 searchPos p) in H; [discriminate|].
      apply undelimited_is_skipped; [exact Hp|].
      intros (c0 & g0 & l0 & Hc0 & Hg0 & Hl0). congruence.
    - rewrite (skip_malformed_diverges startDate startIndex content
                 searchPos p) in H; [discriminate|].
      apply undelimited_is_skipped; [exact Hp|].
      intros (c0 & g0 & l0 & Hc0 & Hg0 & _). congruence. }
  destruct Hdel as (c0 & g & l & Hc0 & Hg & Hl).
  assert (c0 = c) by congruence. subst c0. clear Hc0.
  destruct fuel as [|fuel]; [discriminate|].
  cbn [scan] in H.
  unfold loop_body in H. rewrite Hp, Hc, Hg, Hl in H.
  pose proof (find_Some _ _ _ _ Hc) as (_ & Hc_len & Hc_at & _).
  pose proof (find_Some _ _ _ _ Hg) as (Hg_le & Hg_len & _ & _).
  change (length (lit ")")) with 1%nat in Hc_len.
  change (length (lit ">")) with 1%nat in Hg_len.
  destruct (parse_args _ startIndex) as [formatStr dayOffset out0|out0].
  - destruct (formatDate _ _) as [newDateStr|]; [|discriminate].
    apply scan_keeps_prefix in H.
    transitivity
      (firstn (c + 1)
         (firstn (g + 1) (replace content (g + 1) (l - (g + 1)) newDateStr))).
    + rewrite firstn_firstn.
      replace (firstn (c + 1) content')
        with (firstn (c + 1)
                (firstn (g + 1 + length newDateStr) content'))
        by (rewrite firstn_firstn; f_equal; lia).
      rewrite H, firstn_firstn. f_equal. lia.
    + rewrite firstn_replace by lia. rewrite firstn_firstn. f_equal. lia.
  - rewrite (scan_same_search startDate startIndex content c (S c)) in H.
    + apply scan_keeps_prefix in H. now rewrite Nat.add_1_r.
    + apply find_skip; [lia|].
      apply starts_with_inv in Hc_at as [rest ->]. reflexivity.
Qed.

Lemma scan_keeps_text_before_directive_witness :
  let content := lit "<h1>D-day</h1><i a=DateReplace(D, 5)>?</i>" in
  let content' := lit "<h1>D-day</h1><i a=DateReplace(D, 5)>19</i>" in
  let out' := [debug_day_number (lit "D, 5") (lit " 5");
               spliced 37 38 (lit "19")] in
  scan 5 jan_15_2024 1 content 0 false [] = Some (content', true, out') /\
  firstn 0 content' = firstn 0 content /\
  forall p c,
    find content startMarker 0 = Some p ->
    find content (lit ")") (p + length startMarker) = Some c ->
    firstn (c + 1) content' = firstn (c + 1) content.
Proof.
  intros content content' out'.
  assert (H : scan 5 jan_15_2024 1 content 0 false []
              = Some (content', true, out')) by reflexivity.
  exact (conj H (scan_keeps_text_before_directive jan_15_2024 1 5 content 0
                   false [] content' true out' H)).
Defined.

Section OneDirective.

Local Open Scope nat_scope.

Lemma nth_error_starts_with (c : ascii) (s : text) (q : nat) :
  starts_with [c] (skipn q s) = true -> In c s.
Proof.
  intros H. apply starts_with_char in H. now apply nth_error_In in H.
Qed.

(** The search for a character from the end of [x] skips a text without
    that character. *)
Lemma find_char_after (x a b : text) (c : ascii) :
  ~ In c a ->
  find (x ++ a ++ c :: b) [c] (length x) = Some (length x + length a).
Proof.
  intros Hno. apply find_intro.
  - rewrite !length_app. simpl. lia.
  - apply starts_with_char.
    rewrite nth_error_app2 by lia. rewrite nth_error_app2 by lia.
    replace (length x + length a - length x - length a) with 0 by lia.
    reflexivity.
  - intros q Hq.
    destruct (starts_with [c] (skipn q (x ++ a ++ c :: b))) eqn:E;
      [|reflexivity].
    apply starts_with_char in E.
    rewrite nth_error_app2 in E by lia.
    rewrite nth_error_app1 in E by lia.
    elim Hno. now apply nth_error_In in E.
Qed.

(** The first occurrence of a pattern, when none begins in the text
    before it. *)
Lemma find_first_occurrence (pre pat rest : text) :
  ~ occurs pat (pre ++ removelast pat) ->
  find (pre ++ pat ++ rest) pat 0 = Some (length pre).
Proof.
  intros Hno. apply find_intro.
  - rewrite length_app. lia.
  - rewrite skipn_app, skipn_all, Nat.sub_diag. cbn [skipn app].
    apply starts_with_app.
  - intros q Hq.
    destruct (starts_with pat (skipn q (pre ++ pat ++ rest))) eqn:E;
      [|reflexivity].
    elim Hno. apply starts_with_inv in E as [r Hr].
    rewrite skipn_app in Hr.
    replace (q - length pre) with 0 in Hr by lia. cbn [skipn] in Hr.
    assert (Hu : length (skipn q pre) = length pre - q) by apply length_skipn.
    exists (firstn q pre),
      (firstn (length (skipn q pre) + pred (length pat) - length pat) r).
    rewrite <- (firstn_skipn q pre) at 1. rewrite <- app_assoc. f_equal.
    rewrite removelast_firstn_len.
    apply (f_equal (firstn (length (skipn q pre) + pred (length pat)))) in Hr.
    rewrite firstn_app_2 in Hr.
    rewrite (firstn_app _ pat rest) in Hr.
    replace (pred (length pat) - length pat) with 0 in Hr by lia.
    rewrite firstn_O, app_nil_r in Hr. rewrite Hr.
    rewrite (firstn_app _ pat r).
    rewrite firstn_all2 by lia. reflexivity.
Qed.

Lemma no_marker_after_lt (post : text) :
  ~ occurs startMarker post ->
  find ("<"%char :: post) startMarker 0 = None.
Proof.
  intros Hno.
  destruct (find ("<"%char :: post) startMarker 0) as [p|] eqn:E;
    [|reflexivity].
  apply find_Some_occurs in E as (before & after & Heq).
  destruct before as [|b before]; [discriminate|].
  injection Heq as _ Heq. elim Hno. now exists before, after.
Qed.

Ltac norm_app :=
  repeat first [rewrite <- app_assoc | rewrite <- app_comm_cons]; cbn [app].

Variables (startDate : tm) (startIndex : Z).

(** The scan of a buffer with one directive, in full. *)
Lemma scan_one_directive
    (pre args mid old post formatStr : text) (dayOffset : Z)
    (out0 : list event) (newDateStr : text) (fuel : nat) :
  ~ occurs startMarker (pre ++ removelast startMarker) ->
  ~ In ")"%char args -> ~ In ">"%char mid -> ~ In "<"%char old ->
  ~ occurs startMarker post ->
  parse_args args startIndex = args_ok formatStr dayOffset out0 ->
  formatDate (addDays startDate (int_sub dayOffset startIndex))
    (trim_format formatStr) = Some newDateStr ->
  let head := pre ++ startMarker ++ args ++ ")"%char :: mid ++ [">"%char] in
  scan (S (S fuel)) startDate startIndex
    (head ++ old ++ "<"%char :: post) 0 false []
  = Some (head ++ newDateStr ++ "<"%char :: post, true,
          out0 ++ [spliced (length head) (length head + length old)
                     newDateStr]).
Proof.
  intros Hpre Hargs Hmid Hold Hpost Hparse Hfmt head.
  set (content := head ++ old ++ "<"%char :: post).
  set (s1 := pre ++ startMarker).
  set (s2 := s1 ++ args).
  set (s3 := s2 ++ ")"%char :: mid).
  assert (Hhead : head = s3 ++ [">"%char]).
  { unfold head, s3, s2, s1. norm_app. reflexivity. }
  assert (Hp : find content startMarker 0 = Some (length pre)).
  { unfold content, head. norm_app.
    now apply find_first_occurrence. }
  assert (Hc : find content (lit ")") (length pre + length startMarker)
               = Some (length s2)).
  { replace (length pre + length startMarker) with (length s1)
      by (unfold s1; now rewrite length_app).
    replace content
      with (s1 ++ args ++ ")"%char :: (mid ++ ">"%char :: old ++ "<"%char :: post))
      by (unfold content, head, s1; norm_app; reflexivity).
    unfold s2. rewrite length_app. now apply find_char_after. }
  assert (Hg : find content (lit ">") (length s2) = Some (length s3)).
  { replace content
      with (s2 ++ (")"%char :: mid) ++ ">"%char :: (old ++ "<"%char :: post))
      by (unfold content, head, s2, s1; norm_app;
          reflexivity).
    unfold s3. rewrite length_app. apply find_char_after.
    intros [H|H]; [discriminate|contradiction]. }
  assert (Hl : find content (lit "<") (length s3 + 1)
               = Some (length head + length old)).
  { replace (length s3 + 1) with (length head)
      by (rewrite Hhead, length_app; reflexivity).
    unfold content. rewrite app_assoc.
    replace ((head ++ old) ++ "<"%char :: post)
      with (head ++ old ++ "<"%char :: post) by now rewrite app_assoc.
    now apply find_char_after. }
  assert (Hargs_str : substr content (length pre + length startMarker)
                        (length s2 - (length pre + length startMarker))
                      = args).
  { replace (length pre + length startMarker) with (length s1)
      by (unfold s1; now rewrite length_app).
    replace content
      with (s1 ++ args ++ ")"%char :: (mid ++ ">"%char :: old ++ "<"%char :: post))
      by (unfold content, head, s1; norm_app; reflexivity).
    unfold substr, s2. rewrite skipn_app, skipn_all, Nat.sub_diag.
    cbn [skipn app]. rewrite length_app.
    replace (length s1 + length args - length s1) with (length args) by lia.
    now rewrite firstn_app, firstn_all, Nat.sub_diag, firstn_O, app_nil_r. }
  set (content' := head ++ newDateStr ++ "<"%char :: post).
  assert (Hreplace : replace content (length s3 + 1)
                       (length head + length old - (length s3 + 1)) newDateStr
                     = content').
  { replace (length s3 + 1) with (length head)
      by (rewrite Hhead, length_app; reflexivity).
    unfold replace, content, content'.
    rewrite firstn_app, firstn_all, Nat.sub_diag, firstn_O, app_nil_r.
    f_equal. f_equal.
    replace (length head + (length head + length old - length head))
      with (length (head ++ old)) by (rewrite length_app; lia).
    rewrite app_assoc, skipn_app, skipn_all, Nat.sub_diag. reflexivity. }
  assert (Hbody : loop_body startDate startIndex content 0
                  = Some (replaced content' (length head + length newDateStr)
                            (out0 ++ [spliced (length head)
                                        (length head + length old)
                                        newDateStr]))).
  { unfold loop_body. rewrite Hp, Hc, Hg, Hl, Hargs_str, Hparse, Hfmt, Hreplace.
    replace (length s3 + 1) with (length head)
      by (rewrite Hhead, length_app; reflexivity).
    reflexivity. }
  assert (Hend : loop_body startDate startIndex content'
                   (length head + length newDateStr) = Some no_marker).
  { apply loop_body_no_marker.
    replace (length head + length newDateStr)
      with (length (head ++ newDateStr) + 0) by (rewrite length_app; lia).
    unfold content'. rewrite app_assoc.
    rewrite find_skipn by (rewrite (length_app (head ++ newDateStr)); lia).
    rewrite skipn_app, skipn_all, Nat.sub_diag. cbn [skipn app].
    now rewrite no_marker_after_lt. }
  cbn [scan]. rewrite Hbody, Hend. reflexivity.
Qed.

End OneDirective.

Lemma not_in_text (c : ascii) (s : text) :
  existsb (Ascii.eqb c) s = false -> ~ In c s.
Proof.
  intros H Hin.
  assert (existsb (Ascii.eqb c) s = true)
    by (apply existsb_exists; exists c; split;
        [exact Hin | apply Ascii.eqb_refl]).
  congruence.
Qed.

(** X16. A buffer that holds one directive, with no marker beginning
    before it, no [)] in its arguments, no [>] between its closing
    parenthesis and the first [>], no [<] in the text that follows up
    to the first [<], and no marker after that [<], is scanned in two
    iterations: the text between that [>] and that [<] is replaced by
    the rendered date, everything else stays, and the buffer is flagged
    as modified. *)
Theorem one_directive_is_replaced
    (startDate : tm) (startIndex : Z)
    (pre args mid old post formatStr : text) (dayOffset : Z)
    (out0 : list event) (fuel : nat) :
  ~ occurs startMarker (pre ++ removelast startMarker) ->
  ~ In ")"%char args -> ~ In ">"%char mid -> ~ In "<"%char old ->
  ~ occurs startMarker post ->
  parse_args args startIndex = args_ok formatStr dayOffset out0 ->
  let head := pre ++ startMarker ++ args ++ ")"%char :: mid ++ [">"%char] in
  exists newDateStr,
    formatDate (addDays startDate (int_sub dayOffset startIndex))
      (trim_format formatStr) = Some newDateStr /\
    scan (S (S fuel)) startDate startIndex
      (head ++ old ++ "<"%char :: post) 0 false []
    = Some (head ++ newDateStr ++ "<"%char :: post, true,
            out0 ++ [spliced (length head) (length head + length old)
                       newDateStr]).
Proof.
  intros Hpre Hargs Hmid Hold Hpost Hparse head.
  destruct (formatDate_total
              (addDays startDate (int_sub dayOffset startIndex))
              (trim_format formatStr)) as [newDateStr Hfmt].
  exists newDateStr. split; [exact Hfmt|].
  now apply scan_one_directive with formatStr dayOffset.
Qed.

Lemma one_directive_is_replaced_witness :
  let pre := lit "<h2 title=" in
  let args := lit "NN, 3" in
  let mid : text := [] in
  let old := lit "?" in
  let post := lit "/h2><p>text</p>" in
  (~ occurs startMarker (pre ++ removelast startMarker) /\
   ~ In ")"%char args /\ ~ In ">"%char mid /\ ~ In "<"%char old /\
   ~ occurs startMarker post /\
   parse_args args 1
   = args_ok (lit "NN") 3 [debug_day_number (lit "NN, 3") (lit " 3")]) /\
  (let head := pre ++ startMarker ++ args ++ ")"%char :: mid ++ [">"%char] in
   exists newDateStr,
     formatDate (addDays jan_15_2024 (int_sub 3 1)) (trim_format (lit "NN"))
       = Some newDateStr /\
     scan 2 jan_15_2024 1 (head ++ old ++ "<"%char :: post) 0 false []
     = Some (head ++ newDateStr ++ "<"%char :: post, true,
             [debug_day_number (lit "NN, 3") (lit " 3")]
               ++ [spliced (length head) (length head + length old)
                     newDateStr])) /\
  scan 2 jan_15_2024 1 (lit "<h2 title=DateReplace(NN, 3)>?</h2><p>text</p>")
    0 false []
  = Some (lit "<h2 title=DateReplace(NN, 3)>Wednesday</h2><p>text</p>", true,
          [debug_day_number (lit "NN, 3") (lit " 3");
           spliced 29 30 (lit "Wednesday")]).
Proof.
  intros pre args mid old post.
  assert (H1 : ~ occurs startMarker (pre ++ removelast startMarker))
    by (apply not_occurs; vm_compute; reflexivity).
  assert (H2 : ~ In ")"%char args) by (apply not_in_text; reflexivity).
  assert (H3 : ~ In ">"%char mid) by (apply not_in_text; reflexivity).
  assert (H4 : ~ In "<"%char old) by (apply not_in_text; reflexivity).
  assert (H5 : ~ occurs startMarker post)
    by (apply not_occurs; vm_compute; reflexivity).
  assert (H6 : parse_args args 1
               = args_ok (lit "NN") 3
                   [debug_day_number (lit "NN, 3") (lit " 3")])
    by reflexivity.
  split; [assumptions|]. split; [|reflexivity].
  exact (one_directive_is_replaced jan_15_2024 1 pre args mid old post
           (lit "NN") 3 _ 0 H1 H2 H3 H4 H5 H6).
Defined.

(** X17. Running the scan again on its own result changes nothing more,
    for a buffer with one directive whose rendered date holds no [<]:
    the marker and its arguments are still there, the same date is
    computed, and it replaces itself. *)
Theorem one_directive_scan_twice
    (startDate : tm) (startIndex : Z)
    (pre args mid post formatStr : text) (dayOffset : Z)
    (out0 : list event) (newDateStr : text) (fuel : nat) :
  ~ occurs startMarker (pre ++ removelast startMarker) ->
  ~ In ")"%char args -> ~ In ">"%char mid ->
  ~ occurs startMarker post ->
  parse_args args startIndex = args_ok formatStr dayOffset out0 ->
  formatDate (addDays startDate (int_sub dayOffset startIndex))
    (trim_format formatStr) = Some newDateStr ->
  ~ In "<"%char newDateStr ->
  let head := pre ++ startMarker ++ args ++ ")"%char :: mid ++ [">"%char] in
  let content' := head ++ newDateStr ++ "<"%char :: post in
  scan (S (S fuel)) startDate startIndex content' 0 false []
  = Some (content', true,
          out0 ++ [spliced (length head) (length head + length newDateStr)
                     newDateStr]).
Proof.
  intros Hpre Hargs Hmid Hpost Hparse Hfmt Hnew head content'.
  now apply scan_one_directive with formatStr dayOffset.
Qed.

Lemma one_directive_scan_twice_witness :
  let pre := lit "<h2 title=" in
  let args := lit "NN, 3" in
  let mid : text := [] in
  let post := lit "/h2><p>text</p>" in
  let newDateStr := lit "Wednesday" in
  (~ occurs startMarker (pre ++ removelast startMarker) /\
   ~ In ")"%char args /\ ~ In ">"%char mid /\
   ~ occurs startMarker post /\
   parse_args args 1
   = args_ok (lit "NN") 3 [debug_day_number (lit "NN, 3") (lit " 3")] /\
   formatDate (addDays jan_15_2024 (int_sub 3 1)) (trim_format (lit "NN"))
   = Some newDateStr /\
   ~ In "<"%char newDateStr) /\
  let head := pre ++ startMarker ++ args ++ ")"%char :: mid ++ [">"%char] in
  let content' := head ++ newDateStr ++ "<"%char :: post in
  scan 2 jan_15_2024 1 content' 0 false []
  = Some (content', true,
          [debug_day_number (lit "NN, 3") (lit " 3")]
            ++ [spliced (length head) (length head + length newDateStr)
                  newDateStr]).
Proof.
  intros pre args mid post newDateStr.
  assert (H1 : ~ occurs startMarker (pre ++ removelast startMarker))
    by (apply not_occurs; vm_compute; reflexivity).
  assert (H2 : ~ In ")"%char args) by (apply not_in_text; reflexivity).
  assert (H3 : ~ In ">"%char mid) by (apply not_in_text; reflexivity).
  assert (H4 : ~ occurs startMarker post)
    by (apply not_occurs; vm_compute; reflexivity).
  assert (H5 : parse_args args 1
               = args_ok (lit "NN") 3
                   [debug_day_number (lit "NN, 3") (lit " 3")])
    by reflexivity.
  assert (H6 : formatDate (addDays jan_15_2024 (int_sub 3 1))
                 (trim_format (lit "NN")) = Some newDateStr) by reflexivity.
  assert (H7 : ~ In "<"%char newDateStr) by (apply not_in_text; reflexivity).
  split; [assumptions|].
  exact (one_directive_scan_twice jan_15_2024 1 pre args mid post
           (lit "NN") 3 _ newDateStr 0 H1 H2 H3 H4 H5 H6 H7).
Defined.

(** * Properties of processFile as a whole *)

Lemma text_eqb_eq (a b : text) : text_eqb a b = true <-> a = b.
Proof.
  revert b; induction a as [|x a IH]; intros [|y b]; simpl;
    try (split; [discriminate|discriminate]); [tauto|].
  rewrite andb_true_iff, Ascii.eqb_eq, IH.
  split; [intros [-> ->]; reflexivity | intros [= -> ->]; auto].
Qed.

Lemma valid_extension_test (ext : text) :
  existsb (text_eqb ext) validExtensions = true <-> In ext validExtensions.
Proof.
  rewrite existsb_exists. split.
  - intros (x & Hx & Heq). apply text_eqb_eq in Heq. now subst.
  - intros H. exists ext. split; [exact H|]. now apply text_eqb_eq.
Qed.

(** X18. A readable file with one of the four extensions that holds the
    marker text is written back whenever its scan ends, with the buffer
    the scan ended with, whether or not anything was replaced; when the
    file cannot be opened for writing, the only effect is one more
    warning. *)
Theorem file_with_marker_is_written
    (fuel : nat) (ext content : text) (startDate : tm) (startIndex : Z)
    (content' : text) (modified : bool) (out : list event) :
  In ext validExtensions ->
  occurs startMarker content ->
  scan fuel startDate startIndex content 0 false []
    = Some (content', modified, out) ->
  processFile fuel ext (Some content) true startDate startIndex
    = Some {| written := Some content'; printed := out |} /\
  processFile fuel ext (Some content) false startDate startIndex
    = Some {| written := None; printed := out ++ [warning_cannot_write] |}.
Proof.
  intros Hext Hocc Hscan.
  assert (Hm : modified = true).
  { apply (scan_modified_iff _ _ _ _ _ _ _ _ _ Hscan).
    now apply occurs_find. }
  subst modified. unfold processFile.
  apply valid_extension_test in Hext. rewrite Hext, Hscan. now split.
Qed.

Lemma file_with_marker_is_written_witness :
  let content := lit "<i a=DateReplace(D, abc)>x</i>" in
  let out := [debug_day_number (lit "D, abc") (lit " abc");
              warning_invalid_day] in
  (In (lit ".xml") validExtensions /\
   occurs startMarker content /\
   scan 2 jan_15_2024 0 content 0 false [] = Some (content, true, out)) /\
  processFile 2 (lit ".xml") (Some content) true jan_15_2024 0
    = Some {| written := Some content; printed := out |} /\
  processFile 2 (lit ".xml") (Some content) false jan_15_2024 0
    = Some {| written := None; printed := out ++ [warning_cannot_write] |}.
Proof.
  intros content out.
  assert (H1 : In (lit ".xml") validExtensions)
    by (right; right; left; reflexivity).
  assert (H2 : occurs startMarker content)
    by (exists (lit "<i a="), (lit "D, abc)>x</i>"); reflexivity).
  assert (H3 : scan 2 jan_15_2024 0 content 0 false []
               = Some (content, true, out)) by reflexivity.
  split; [assumptions|].
  exact (file_with_marker_is_written 2 (lit ".xml") content jan_15_2024 0
           content true out H1 H2 H3).
Defined.

(** * Properties of the command line *)

Section CommandLine.

Local Open Scope nat_scope.

(** Induction on the argument list in steps of one or two arguments, as
    the loop consumes them. *)
Lemma arguments_ind (P : list text -> Prop) :
  P [] ->
  (forall arg, P [arg]) ->
  (forall arg next rest, P rest -> P (next :: rest) -> P (arg :: next :: rest)) ->
  forall args, P args.
Proof.
  intros H0 H1 H2 args.
  assert (H : P args /\ forall arg, P (arg :: args)).
  { induction args as [|a args [IH1 IH2]].
    - split; [exact H0 | exact H1].
    - split; [apply IH2|]. intros arg. now apply H2. }
  apply H.
Qed.

Lemma argument_loop_without_start (args : list text) :
  ~ In (lit "-start") args ->
  forall o o', argument_loop args o = Some o' ->
               startDateStr o' = startDateStr o.
Proof.
  induction args as [|arg|arg next rest IH1 IH2] using arguments_ind;
    intros Hno o o'.
  - now intros [= <-].
  - now intros [= <-].
  - cbn [argument_loop].
    destruct (text_eqb arg (lit "-start")) eqn:E.
    { apply text_eqb_eq in E. elim Hno. now left. }
    assert (H1 : ~ In (lit "-start") rest)
      by (intros H; apply Hno; now right; right).
    assert (H2 : ~ In (lit "-start") (next :: rest))
      by (intros H; apply Hno; now right).
    destruct (text_eqb arg (lit "-o")).
    { intros H. now apply (IH1 H1) in H. }
    destruct (text_eqb arg (lit "-i")).
    { destruct (stoi next); try discriminate.
      intros H. now apply (IH1 H1) in H. }
    intros H. now apply (IH2 H2) in H.
Qed.

Lemma argument_loop_without_index (args : list text) :
  ~ In (lit "-i") args ->
  forall o, exists o',
    argument_loop args o = Some o' /\
    startIndex_option o' = startIndex_option o.
Proof.
  induction args as [|arg|arg next rest IH1 IH2] using arguments_ind;
    intros Hno o.
  - now exists o.
  - now eexists.
  - cbn [argument_loop].
    assert (H1 : ~ In (lit "-i") rest)
      by (intros H; apply Hno; now right; right).
    assert (H2 : ~ In (lit "-i") (next :: rest))
      by (intros H; apply Hno; now right).
    destruct (text_eqb arg (lit "-start"));
      [edestruct (IH1 H1) as (o' & Ho' & Hidx); exists o';
       split; [exact Ho' | exact Hidx]|].
    destruct (text_eqb arg (lit "-o"));
      [edestruct (IH1 H1) as (o' & Ho' & Hidx); exists o';
       split; [exact Ho' | exact Hidx]|].
    destruct (text_eqb arg (lit "-i")) eqn:E;
      [|edestruct (IH2 H2) as (o' & Ho' & Hidx); exists o';
        split; [exact Ho' | exact Hidx]].
    apply text_eqb_eq in E. elim Hno. now left.
Qed.

Lemma argument_loop_last (pairs : list (text * text)) (last : text) :
  Forall (fun p => In (fst p) flags) pairs ->
  forall o,
    argument_loop (flag_pairs pairs ++ [last]) o
    = option_map (set_archive last) (argument_loop (flag_pairs pairs) o).
Proof.
  induction 1 as [|[flag value] pairs Hflag _ IH]; intros o; [reflexivity|].
  change (flag_pairs ((flag, value) :: pairs) ++ [last])
    with (flag :: value :: (flag_pairs pairs ++ [last])).
  change (flag_pairs ((flag, value) :: pairs))
    with (flag :: value :: flag_pairs pairs).
  cbn [argument_loop].
  destruct (text_eqb flag (lit "-start")) eqn:E1; [apply IH|].
  destruct (text_eqb flag (lit "-o")) eqn:E2; [apply IH|].
  destruct (text_eqb flag (lit "-i")) eqn:E3.
  - destruct (stoi value); try reflexivity. apply IH.
  - cbn [fst flags In] in Hflag.
    destruct Hflag as [<-|[<-|[<-|[]]]]; discriminate.
Qed.

End CommandLine.

(** X19. Without an argument [-start] there is no run: the first part of
    [main] ends with the usage message, or with the message about the
    index, and never hands a set of options to the rest of [main]. *)
Theorem start_argument_is_required (args : list text) :
  ~ In (lit "-start") args ->
  main_arguments args = usage \/ main_arguments args = invalid_index.
Proof.
  intros Hno. unfold main_arguments.
  destruct (argument_loop args initial_options) as [o|] eqn:E; [|now right].
  apply (argument_loop_without_start _ Hno) in E.
  left. now rewrite E.
Qed.

Lemma start_argument_is_required_witness :
  let args := map lit ["course.imscc"; "-o"; "out.imscc"; "-i"; "1"]%string in
  ~ In (lit "-start") args /\
  (main_arguments args = usage \/ main_arguments args = invalid_index).
Proof.
  intros args.
  assert (H : ~ In (lit "-start") args).
  { intros Hin.
    assert (Ht : existsb (text_eqb (lit "-start")) args = true)
      by (apply existsb_exists; exists (lit "-start"); split;
          [exact Hin | reflexivity]).
    discriminate Ht. }
  exact (conj H (start_argument_is_required args H)).
Defined.

(** X20. A command line with fewer than three arguments after the
    program name is never accepted: [-start] with its value and the
    archive path are the least that [main] goes on with. *)
Theorem fewer_than_three_arguments (args : list text) :
  (length args < 3)%nat ->
  main_arguments args = usage \/ main_arguments args = invalid_index.
Proof.
  intros Hlen.
  destruct args as [|a [|b [|c rest]]]; [now left|now left| |simpl in Hlen; lia].
  unfold main_arguments. cbn [argument_loop].
  destruct (text_eqb a (lit "-start")).
  { left. cbn [startDateStr archivePathStr initial_options length].
    now rewrite orb_true_r. }
  destruct (text_eqb a (lit "-o")); [now left|].
  destruct (text_eqb a (lit "-i")); [|now left].
  destruct (stoi b); [now left|now right|now right].
Qed.

Lemma fewer_than_three_arguments_witness :
  let args := map lit ["-start"; "01/15/2024"]%string in
  (length args < 3)%nat /\
  (main_arguments args = usage \/ main_arguments args = invalid_index).
Proof.
  intros args.
  assert (H : (length args < 3)%nat) by (vm_compute; lia).
  exact (conj H (fewer_than_three_arguments args H)).
Defined.

(** X21. A command line that nowhere holds [-i] never ends with the
    message about the index, and when it is accepted the start index is
    the default, 0. *)
Theorem start_index_defaults_to_zero (args : list text) :
  ~ In (lit "-i") args ->
  main_arguments args <> invalid_index /\
  forall o, main_arguments args = accepted o -> startIndex_option o = 0%Z.
Proof.
  intros Hno. unfold main_arguments.
  destruct (argument_loop_without_index args Hno initial_options)
    as (o' & -> & Hidx).
  destruct (_ || _)%bool; [split; [discriminate|discriminate]|].
  destruct (Nat.eqb _ 0); (split; [discriminate|]);
    intros o [= <-]; exact Hidx.
Qed.

Lemma start_index_defaults_to_zero_witness :
  let args := map lit ["c.imscc"; "-start"; "08/26/2024"]%string in
  ~ In (lit "-i") args /\
  main_arguments args <> invalid_index /\
  forall o, main_arguments args = accepted o -> startIndex_option o = 0%Z.
Proof.
  intros args.
  assert (H : ~ In (lit "-i") args).
  { intros Hin.
    assert (Ht : existsb (text_eqb (lit "-i")) args = true)
      by (apply existsb_exists; exists (lit "-i"); split;
          [exact Hin | reflexivity]).
    discriminate Ht. }
  exact (conj H (start_index_defaults_to_zero args H)).
Defined.

(** X22. After any number of flags with their values, one more argument
    is taken as the path of the input archive, whatever it is: a flag
    given last, with no value after it, replaces the archive path. *)
Theorem last_argument_is_archive_path
    (pairs : list (text * text)) (last : text) (o : options) :
  Forall (fun p => In (fst p) flags) pairs ->
  argument_loop (flag_pairs pairs ++ [last]) o
  = option_map (set_archive last) (argument_loop (flag_pairs pairs) o).
Proof. intros H. now apply argument_loop_last. Qed.

Lemma last_argument_is_archive_path_witness :
  let pairs := [(lit "-start", lit "01/15/2024"); (lit "-o", lit "-i")] in
  Forall (fun p => In (fst p) flags) pairs /\
  argument_loop (flag_pairs pairs ++ [lit "-i"]) initial_options
  = option_map (set_archive (lit "-i"))
      (argument_loop (flag_pairs pairs) initial_options) /\
  main_arguments (map lit ["-start"; "01/15/2024"; "-o"; "-i"; "-i"]%string)
  = accepted {| startDateStr := lit "01/15/2024";
                archivePathStr := lit "-i";
                outputArchivePathStr := lit "-i";
                startIndex_option := 0 |}.
Proof.
  intros pairs.
  assert (H : Forall (fun p => In (fst p) flags) pairs).
  { apply Forall_cons; [now left|].
    apply Forall_cons; [right; now left|]. apply Forall_nil. }
  split; [exact H|]. split; [|reflexivity].
  exact (last_argument_is_archive_path pairs (lit "-i") initial_options H).
Defined.

(** * Properties of the paths *)

Section Paths.

Local Open Scope nat_scope.

Lemma rfind_in_bound (c : ascii) (s : text) (i : nat) (last : option nat)
    (k : nat) :
  rfind_in c s i last = Some k -> last = Some k \/ i <= k < i + length s.
Proof.
  revert i last; induction s as [|a s IH]; intros i last H; [now left|].
  simpl in H. apply IH in H as [H|H]; [|right; simpl; lia].
  destruct (Ascii.eqb a c); [|now left].
  injection H as <-. right. simpl. lia.
Qed.

Lemma rfind_bound (s : text) (c : ascii) (k : nat) :
  rfind s c = Some k -> k < length s.
Proof.
  intros H. apply rfind_in_bound in H as [H|H]; [discriminate|lia].
Qed.

Lemma rfind_absent (s : text) (c : ascii) : ~ In c s -> rfind s c = None.
Proof. intros H. unfold rfind. now apply rfind_in_absent. Qed.

(** A path is its directory part followed by its file name. *)
Lemma filename_split (path : text) :
  firstn (length path - length (filename path)) path ++ filename path = path.
Proof.
  unfold filename. destruct (rfind path "/"%char) as [k|] eqn:E.
  - apply rfind_bound in E. rewrite length_skipn.
    replace (length path - (length path - (k + 1))) with (k + 1) by lia.
    apply firstn_skipn.
  - now rewrite Nat.sub_diag.
Qed.

(** The extension is the end of the file name. *)
Lemma extension_is_suffix (path : text) :
  exists k, k <= length (filename path) /\
            extension path = skipn k (filename path).
Proof.
  unfold extension. set (name := filename path).
  assert (H : exists k, k <= length name /\
                match rfind name "."%char with
                | Some (S pos) => skipn (S pos) name
                | _ => []
                end = skipn k name).
  { destruct (rfind name "."%char) as [[|pos]|] eqn:E.
    - exists (length name). now rewrite skipn_all.
    - apply rfind_bound in E. exists (S pos). split; [lia|reflexivity].
    - exists (length name). now rewrite skipn_all. }
  destruct name as [|c rest] eqn:En; [exact H|].
  destruct c as [[] [] [] [] [] [] [] []]; try exact H.
  destruct (Nat.leb (length ("."%char :: rest)) 2); [|exact H].
  exists (length ("."%char :: rest)). now rewrite skipn_all.
Qed.

Lemma stem_extension (path : text) :
  stem path ++ extension path = filename path.
Proof.
  unfold stem. destruct (extension_is_suffix path) as (k & Hk & ->).
  rewrite length_skipn.
  replace (length (filename path) - (length (filename path) - k)) with k
    by lia.
  apply firstn_skipn.
Qed.

End Paths.

(** X23. The default output path is the input path with [_updated] put
    between the stem and the extension of its file name: it lies in the
    same directory, keeps the extension, is eight characters longer, and
    so is never the input path itself. *)
Theorem default_output_path_shape (archivePathStr : text) :
  exists directory,
    archivePathStr
    = directory ++ stem archivePathStr ++ extension archivePathStr /\
    default_output_path archivePathStr
    = directory ++ stem archivePathStr ++ lit "_updated"
        ++ extension archivePathStr /\
    length (default_output_path archivePathStr)
    = (length archivePathStr + 8)%nat /\
    default_output_path archivePathStr <> archivePathStr.
Proof.
  set (path := archivePathStr).
  exists (firstn (length path - length (filename path)) path).
  assert (H1 : path
               = firstn (length path - length (filename path)) path
                   ++ stem path ++ extension path)
    by (now rewrite stem_extension, filename_split).
  assert (H2 : length (default_output_path path) = (length path + 8)%nat).
  { rewrite H1 at 2. unfold default_output_path, replace_filename.
    rewrite !length_app. simpl. lia. }
  split; [exact H1|]. split; [reflexivity|]. split; [exact H2|].
  intros Heq. rewrite Heq in H2. lia.
Qed.

Lemma plain_name_parts (directory base ext : text) :
  directory = [] \/ (exists d, directory = d ++ ["/"%char]) ->
  base <> [] -> ext <> [] ->
  ~ In "/"%char base -> ~ In "/"%char ext -> ~ In "."%char ext ->
  let path := directory ++ base ++ "."%char :: ext in
  filename path = base ++ "."%char :: ext /\
  extension path = "."%char :: ext /\
  stem path = base.
Proof.
  intros Hdir Hbase Hext Hb He Hdot.
  set (name := base ++ "."%char :: ext). cbv zeta.
  assert (Hname : ~ In "/"%char name).
  { unfold name. intros H. apply in_app_or in H as [H|[H|H]];
      [now apply Hb | discriminate | now apply He]. }
  assert (Hfile : filename (directory ++ name) = name).
  { unfold filename. destruct Hdir as [->|[d ->]].
    - cbn [app]. now rewrite rfind_absent.
    - rewrite <- app_assoc. cbn [app]. rewrite (rfind_last _ _ _ Hname).
      rewrite skipn_app, skipn_all2 by lia.
      replace (length d + 1 - length d)%nat with 1%nat by lia. reflexivity. }
  assert (Hdotpos : rfind name "."%char = Some (length base))
    by (apply rfind_last; exact Hdot).
  assert (Hlen : (2 < length name)%nat).
  { unfold name. rewrite length_app. cbn [length].
    destruct base; [congruence|]. destruct ext; [congruence|].
    cbn [length]. lia. }
  assert (Hextn : extension (directory ++ name) = "."%char :: ext).
  { unfold extension. rewrite Hfile, Hdotpos.
    assert (Hskip : skipn (length base) name = "."%char :: ext)
      by (unfold name; now rewrite skipn_app, skipn_all, Nat.sub_diag).
    destruct (length base) as [|pos] eqn:Eb;
      [destruct base; [congruence|discriminate]|].
    apply Nat.leb_gt in Hlen.
    destruct name as [|c rest] eqn:En; [discriminate|].
    destruct c as [[] [] [] [] [] [] [] []];
      try exact Hskip.
    now rewrite Hlen. }
  split; [exact Hfile|]. split; [exact Hextn|].
  pose proof (stem_extension (directory ++ name)) as H.
  rewrite Hfile, Hextn in H. unfold name in H.
  now apply app_inv_tail in H.
Qed.

(** A file whose whole name is a period followed by letters has no
    extension. *)
Lemma dot_name_has_no_extension (directory ext : text) :
  directory = [] \/ (exists d, directory = d ++ ["/"%char]) ->
  ~ In "/"%char ext -> ~ In "."%char ext ->
  extension (directory ++ "."%char :: ext) = [].
Proof.
  intros Hdir He Hdot.
  set (name := "."%char :: ext).
  assert (Hname : ~ In "/"%char name)
    by (intros [H|H]; [discriminate | now apply He]).
  assert (Hfile : filename (directory ++ name) = name).
  { unfold filename. destruct Hdir as [->|[d ->]].
    - cbn [app]. now rewrite rfind_absent.
    - rewrite <- app_assoc. cbn [app]. rewrite (rfind_last _ _ _ Hname).
      rewrite skipn_app, skipn_all2 by lia.
      replace (length d + 1 - length d)%nat with 1%nat by lia. reflexivity. }
  pose proof (rfind_last "."%char [] ext Hdot) as Hr.
  cbn [app length] in Hr.
  unfold extension. rewrite Hfile. unfold name. rewrite Hr.
  now destruct (Nat.leb (length ("."%char :: ext)) 2).
Qed.

(** X24. For an archive [base.ext] in a directory (or in none), with a
    base name and an extension that are not empty, the default output
    path is [base_updated.ext] in the same directory. *)
Theorem default_output_path_of_plain_name (directory base ext : text) :
  directory = [] \/ (exists d, directory = d ++ ["/"%char]) ->
  base <> [] -> ext <> [] ->
  ~ In "/"%char base -> ~ In "/"%char ext -> ~ In "."%char ext ->
  default_output_path (directory ++ base ++ "."%char :: ext)
  = directory ++ base ++ lit "_updated" ++ "."%char :: ext.
Proof.
  intros Hdir Hbase Hext Hb He Hdot.
  destruct (plain_name_parts directory base ext Hdir Hbase Hext Hb He Hdot)
    as (Hfile & Hextn & Hstem).
  unfold default_output_path, replace_filename.
  rewrite Hstem, Hextn, Hfile.
  rewrite length_app, Nat.add_sub, firstn_app, firstn_all, Nat.sub_diag.
  rewrite firstn_O, app_nil_r. reflexivity.
Qed.

Lemma default_output_path_of_plain_name_witness :
  let directory := lit "exports/2024/" in
  let base := lit "course.v2" in
  let ext := lit "imscc" in
  (directory = [] \/ (exists d, directory = d ++ ["/"%char])) /\
  base <> [] /\ ext <> [] /\
  ~ In "/"%char base /\ ~ In "/"%char ext /\ ~ In "."%char ext /\
  default_output_path (lit "exports/2024/course.v2.imscc")
  = lit "exports/2024/course.v2_updated.imscc".
Proof.
  intros directory base ext.
  assert (H1 : directory = [] \/ (exists d, directory = d ++ ["/"%char]))
    by (right; exists (lit "exports/2024"); reflexivity).
  assert (H2 : base <> []) by discriminate.
  assert (H3 : ext <> []) by discriminate.
  assert (H4 : ~ In "/"%char base) by (apply not_in_text; reflexivity).
  assert (H5 : ~ In "/"%char ext) by (apply not_in_text; reflexivity).
  assert (H6 : ~ In "."%char ext) by (apply not_in_text; reflexivity).
  split; [exact H1|]. split; [exact H2|]. split; [exact H3|].
  split; [exact H4|]. split; [exact H5|]. split; [exact H6|].
  exact (default_output_path_of_plain_name directory base ext
           H1 H2 H3 H4 H5 H6).
Defined.

(** * Properties of processDirectory *)

Section Directory.

Variables (startDate : tm) (startIndex : Z).

Lemma processFile_terminates (fuel : nat) (ext : text)
    (fileIn : option text) (can_write : bool) :
  (forall content,
      In ext validExtensions -> fileIn = Some content ->
      delimited_from content 0 /\ (length content < fuel)%nat) ->
  exists r, processFile fuel ext fileIn can_write startDate startIndex = Some r.
Proof.
  intros H. unfold processFile.
  destruct (existsb (text_eqb ext) validExtensions) eqn:E; [|now eexists].
  apply valid_extension_test in E. cbn [negb].
  destruct fileIn as [content|]; [|now eexists].
  destruct (H content E eq_refl) as [Hdel Hlen].
  destruct (scan_terminates startDate startIndex fuel content 0 Hdel
              ltac:(lia) false []) as [[[c m] out] ->].
  destruct m; [destruct can_write|]; now eexists.
Qed.

Lemma processFile_never_ends (fuel : nat) (ext content : text)
    (can_write : bool) (p : nat) :
  In ext validExtensions ->
  find content startMarker 0 = Some p ->
  ~ delimited content p ->
  processFile fuel ext (Some content) can_write startDate startIndex = None.
Proof.
  intros Hext Hp Hno. unfold processFile.
  apply valid_extension_test in Hext. rewrite Hext. cbn [negb].
  now rewrite (skip_malformed_diverges startDate startIndex content 0 p
                 (undelimited_is_skipped startDate startIndex _ _ _ Hp Hno)).
Qed.

End Directory.

(** X25. [processDirectory] comes to an end when every regular file that
    it scans (one of the four extensions, readable) has all its marker
    occurrences delimited; every regular file then has its result, in the
    order of the iteration, and the other entries are passed over. *)
Theorem processDirectory_terminates
    (fuel : nat) (entries : list dir_entry) (startDate : tm) (startIndex : Z) :
  (forall entry content,
      In entry entries ->
      is_regular_file entry = true ->
      In (extension (entry_path entry)) validExtensions ->
      entry_fileIn entry = Some content ->
      delimited_from content 0 /\ (length content < fuel)%nat) ->
  exists results,
    processDirectory fuel entries startDate startIndex = Some results /\
    map fst results = map entry_path (filter is_regular_file entries).
Proof.
  induction entries as [|entry rest IH]; intros H; cbn [processDirectory filter].
  - now exists [].
  - destruct IH as (rs & Hrs & Hpaths).
    { intros e c He. apply H. now right. }
    rewrite Hrs. destruct (is_regular_file entry) eqn:Hreg.
    + destruct (processFile_terminates startDate startIndex fuel
                  (extension (entry_path entry)) (entry_fileIn entry)
                  (entry_can_write entry)) as [r ->].
      { intros c Hext Hc. apply (H entry c); auto. now left. }
      exists ((entry_path entry, r) :: rs). split; [reflexivity|].
      cbn [map fst]. now rewrite Hpaths.
    + now exists rs.
Qed.

Lemma processDirectory_terminates_witness :
  let entries :=
    [ {| entry_path := lit "course/page.html"; is_regular_file := true;
         entry_fileIn := Some (lit "<i a=DateReplace(D, 2)>?</i>");
         entry_can_write := true |};
      {| entry_path := lit "course/img"; is_regular_file := false;
         entry_fileIn := None; entry_can_write := false |};
      {| entry_path := lit "course/img/logo.png"; is_regular_file := true;
         entry_fileIn := Some (lit "DateReplace("); entry_can_write := true |} ] in
  (forall entry content,
      In entry entries ->
      is_regular_file entry = true ->
      In (extension (entry_path entry)) validExtensions ->
      entry_fileIn entry = Some content ->
      delimited_from content 0 /\ (length content < 40)%nat) /\
  exists results,
    processDirectory 40 entries jan_15_2024 1 = Some results /\
    map fst results = map entry_path (filter is_regular_file entries).
Proof.
  intros entries.
  assert (H : forall entry content,
             In entry entries ->
             is_regular_file entry = true ->
             In (extension (entry_path entry)) validExtensions ->
             entry_fileIn entry = Some content ->
             delimited_from content 0 /\ (length content < 40)%nat).
  { intros entry content [<-|[<-|[<-|[]]]] Hreg Hext Hc.
    - injection Hc as <-. split.
      + apply all_delimited_sound. vm_compute. reflexivity.
      + vm_compute. lia.
    - discriminate Hreg.
    - apply valid_extension_test in Hext. vm_compute in Hext.
      discriminate Hext. }
  exact (conj H (processDirectory_terminates 40 entries jan_15_2024 1 H)).
Defined.

(** X26. One scanned file in which the first marker lacks a delimiter
    stops the whole directory pass: [processDirectory] never returns,
    wherever the file comes in the iteration. *)
Theorem processDirectory_blocked_by_one_file
    (entries : list dir_entry) (entry : dir_entry) (content : text) (p : nat)
    (startDate : tm) (startIndex : Z) :
  In entry entries ->
  is_regular_file entry = true ->
  In (extension (entry_path entry)) validExtensions ->
  entry_fileIn entry = Some content ->
  find content startMarker 0 = Some p ->
  ~ delimited content p ->
  forall fuel, processDirectory fuel entries startDate startIndex = None.
Proof.
  intros Hin Hreg Hext Hc Hp Hno fuel.
  induction entries as [|e rest IH]; [contradiction|].
  cbn [processDirectory]. destruct Hin as [->|Hin].
  - rewrite Hreg, Hc.
    now rewrite (processFile_never_ends startDate startIndex fuel _ _ _ p
                   Hext Hp Hno).
  - rewrite (IH Hin). destruct (is_regular_file e); [|reflexivity].
    now destruct (processFile _ _ _ _ _ _).
Qed.

Lemma processDirectory_blocked_by_one_file_witness :
  let bad :=
    {| entry_path := lit "course/notes.txt"; is_regular_file := true;
       entry_fileIn := Some (lit "see DateReplace(D, 4) below");
       entry_can_write := true |} in
  let entries :=
    [ {| entry_path := lit "course/page.html"; is_regular_file := true;
         entry_fileIn := Some (lit "<i a=DateReplace(D, 2)>?</i>");
         entry_can_write := true |};
      bad ] in
  (In bad entries /\
   is_regular_file bad = true /\
   In (extension (entry_path bad)) validExtensions /\
   entry_fileIn bad = Some (lit "see DateReplace(D, 4) below") /\
   find (lit "see DateReplace(D, 4) below") startMarker 0 = Some 4%nat /\
   ~ delimited (lit "see DateReplace(D, 4) below") 4) /\
  forall fuel, processDirectory fuel entries aug_26_2024 0 = None.
Proof.
  intros bad entries.
  assert (H1 : In bad entries) by (right; now left).
  assert (H2 : is_regular_file bad = true) by reflexivity.
  assert (H3 : In (extension (entry_path bad)) validExtensions)
    by (apply valid_extension_test; reflexivity).
  assert (H4 : entry_fileIn bad = Some (lit "see DateReplace(D, 4) below"))
    by reflexivity.
  assert (H5 : find (lit "see DateReplace(D, 4) below") startMarker 0
               = Some 4%nat) by reflexivity.
  assert (H6 : ~ delimited (lit "see DateReplace(D, 4) below") 4).
  { intros (c & g & l & Hc & Hg & Hl).
    vm_compute in Hc. injection Hc as <-.
    vm_compute in Hg. discriminate. }
  split; [assumptions|].
  exact (processDirectory_blocked_by_one_file entries bad _ 4
           aug_26_2024 0 H1 H2 H3 H4 H5 H6).
Defined.

(** X27. Which names are scanned: a file [base.html] (or [.htm], [.xml],
    [.txt]) with a base name that is not empty has that extension and is
    scanned; a file whose whole name is [.html] (or one of the other
    three) has no extension, and is neither read nor written. *)
Theorem scanned_file_names (directory base ext : text) :
  directory = [] \/ (exists d, directory = d ++ ["/"%char]) ->
  In ext validExtensions ->
  ~ In "/"%char base ->
  (base <> [] -> extension (directory ++ base ++ ext) = ext) /\
  extension (directory ++ ext) = [] /\
  forall fuel fileIn can_write startDate startIndex,
    processFile fuel (extension (directory ++ ext)) fileIn can_write
      startDate startIndex
    = Some {| written := None; printed := [] |}.
Proof.
  intros Hdir Hext Hb.
  assert (Hparts : exists e, ext = "."%char :: e /\ e <> [] /\
                             ~ In "/"%char e /\ ~ In "."%char e).
  { cbn [validExtensions map In] in Hext.
    destruct Hext as [<-|[<-|[<-|[<-|[]]]]];
      eexists; (split; [reflexivity|]); (split; [discriminate|]);
      split; apply not_in_text; reflexivity. }
  destruct Hparts as (e & -> & Hne & Hslash & Hdot).
  assert (Hnone : extension (directory ++ "."%char :: e) = [])
    by now apply dot_name_has_no_extension.
  split; [|split; [exact Hnone|]].
  - intros Hbase.
    now destruct (plain_name_parts directory base e Hdir Hbase Hne Hb
                    Hslash Hdot) as (_ & H & _).
  - intros fuel fileIn can_write startDate startIndex.
    rewrite Hnone. reflexivity.
Qed.

Lemma scanned_file_names_witness :
  let directory := lit "course/wiki/" in
  (directory = [] \/ (exists d, directory = d ++ ["/"%char])) /\
  In (lit ".html") validExtensions /\
  ~ In "/"%char (lit "week.1") /\
  (lit "week.1" <> [] ->
   extension (lit "course/wiki/week.1.html") = lit ".html") /\
  extension (lit "course/wiki/.html") = [] /\
  forall fuel fileIn can_write startDate startIndex,
    processFile fuel (extension (lit "course/wiki/.html")) fileIn can_write
      startDate startIndex
    = Some {| written := None; printed := [] |}.
Proof.
  intros directory.
  assert (H1 : directory = [] \/ (exists d, directory = d ++ ["/"%char]))
    by (right; exists (lit "course/wiki"); reflexivity).
  assert (H2 : In (lit ".html") validExtensions) by (now left).
  assert (H3 : ~ In "/"%char (lit "week.1"))
    by (apply not_in_text; reflexivity).
  split; [exact H1|]. split; [exact H2|]. split; [exact H3|].
  exact (scanned_file_names directory (lit "week.1") (lit ".html") H1 H2 H3).
Defined.

(** * One token in literal text *)

Section OneToken.

Local Open Scope nat_scope.

Lemma replace_all_absent (c : ascii) (pat to s : text) :
  ~ In c s -> replace_all (c :: pat) to 0 s = s.
Proof.
  intros H. apply replace_all_no_match. intros k _.
  now apply starts_with_head.
Qed.

Lemma starts_with_before (c : ascii) (pat a rest : text) (q : nat) :
  ~ In c a -> q < length a ->
  starts_with (c :: pat) (skipn q (a ++ rest)) = false.
Proof.
  intros Hno Hq.
  destruct (starts_with (c :: pat) (skipn q (a ++ rest))) eqn:E;
    [|reflexivity].
  apply starts_with_inv in E as [r Hr].
  assert (Hc : nth_error (a ++ rest) q = Some c).
  { rewrite <- (firstn_skipn q (a ++ rest)), Hr.
    rewrite nth_error_app2 by (rewrite length_firstn, length_app; lia).
    rewrite length_firstn, length_app.
    replace (q - Nat.min q (length a + length rest)) with 0 by lia.
    reflexivity. }
  rewrite nth_error_app1 in Hc by exact Hq.
  elim Hno. now apply nth_error_In in Hc.
Qed.

(** A token between two texts without its letter is replaced once. *)
Lemma replace_all_hit (c : ascii) (pat to a b : text) :
  ~ In c a -> ~ In c b ->
  replace_all (c :: pat) to 0 (a ++ (c :: pat) ++ b) = a ++ to ++ b.
Proof.
  intros Ha Hb.
  rewrite (replace_all_first_match (c :: pat) to _ (length a));
    [|discriminate| |].
  - rewrite firstn_app, firstn_all, Nat.sub_diag, firstn_O, app_nil_r.
    f_equal. f_equal.
    rewrite skipn_app, skipn_all2 by lia.
    replace (length a + length (c :: pat) - length a)
      with (length (c :: pat)) by lia.
    rewrite skipn_app, skipn_all, Nat.sub_diag. cbn [skipn app].
    now apply replace_all_absent.
  - intros q Hq. now apply starts_with_before.
  - rewrite skipn_app, skipn_all, Nat.sub_diag. cbn [skipn app].
    apply (starts_with_app (c :: pat) b).
Qed.

(** A doubled letter does not match where the letter stands alone. *)
Lemma replace_all_single (c : ascii) (pat to a b : text) :
  ~ In c a -> ~ In c b ->
  replace_all (c :: c :: pat) to 0 (a ++ [c] ++ b) = a ++ [c] ++ b.
Proof.
  intros Ha Hb. apply replace_all_no_match. intros k _.
  destruct (Nat.lt_ge_cases k (length a)) as [Hk|Hk].
  - now apply starts_with_before.
  - rewrite skipn_app, skipn_all2 by exact Hk. cbn [app].
    destruct (k - length a) as [|j].
    + cbn [skipn app starts_with]. rewrite Ascii.eqb_refl. cbn [andb].
      destruct b as [|x b]; [reflexivity|].
      destruct (Ascii.eqb_spec c x) as [->|_]; [|reflexivity].
      elim Hb. now left.
    + cbn [skipn app]. now apply starts_with_head.
Qed.

End OneToken.

Ltac notin :=
  match goal with
  | |- ~ In _ (_ ++ _) =>
      let H := fresh in
      intros H; apply in_app_or in H as [H|H]; revert H;
      change (In ?x ?l -> False) with (~ In x l); notin
  | |- ~ In _ (lit _) => apply not_in_text; reflexivity
  | |- ~ In _ (_ :: _) => apply not_in_text; reflexivity
  | |- ~ In _ _ => assumption
  end.

Ltac pass a b :=
  match goal with
  | |- context [replace_all (?c :: ?pat) ?to 0 (a ++ ?mid ++ b)] =>
      first
        [ rewrite (replace_all_absent c pat to (a ++ mid ++ b)) by notin
        | rewrite (replace_all_hit c pat to a b) by notin
        | rewrite (replace_all_single c _ to a b) by notin ]
  end.

(** X28. One token in literal text is replaced by its value and nothing
    else changes, for each of the eight tokens, when neither the text
    around the token nor the value holds one of the capital letters [Y],
    [M], [N], [D]: the passes before the token's own pass find nothing,
    and the passes after it do not touch the value. (Years and days are
    such values, and so are the names of the months and weekdays other
    than March, May, November, December and Monday.) *)
Theorem formatDate_one_token (date : tm) (a b token value : text) :
  In (token, value) (replacements date) ->
  no_token_letter a -> no_token_letter b -> no_token_letter value ->
  formatDate date (a ++ token ++ b) = Some (a ++ value ++ b).
Proof.
  intros Hin (HaY & HaM & HaN & HaD) (HbY & HbM & HbN & HbD)
    (HvY & HvM & HvN & HvD).
  unfold formatDate.
  rewrite apply_replacements_fold
    by (unfold replacements; repeat constructor; discriminate).
  unfold replacements in *. cbn [fold_left fst snd].
  cbv [lit list_ascii_of_string] in *.
  cbn [In] in Hin.
  destruct Hin as [H|[H|[H|[H|[H|[H|[H|[H|[]]]]]]]]];
    injection H as <- Hv; rewrite Hv in *; clear Hv;
    repeat pass a b; reflexivity.
Qed.

Lemma formatDate_one_token_witness :
  let a := lit "due on " in
  let b := lit " at noon" in
  (In (lit "NN", lit "Friday") (replacements mar_15_2024) /\
   no_token_letter a /\ no_token_letter b /\ no_token_letter (lit "Friday")) /\
  formatDate mar_15_2024 (lit "due on NN at noon")
  = Some (lit "due on Friday at noon").
Proof.
  intros a b.
  assert (H1 : In (lit "NN", lit "Friday") (replacements mar_15_2024))
    by (right; right; left; reflexivity).
  assert (H2 : no_token_letter a)
    by (repeat split; apply not_in_text; reflexivity).
  assert (H3 : no_token_letter b)
    by (repeat split; apply not_in_text; reflexivity).
  assert (H4 : no_token_letter (lit "Friday"))
    by (repeat split; apply not_in_text; reflexivity).
  split; [assumptions|].
  exact (formatDate_one_token mar_15_2024 a b (lit "NN") (lit "Friday")
           H1 H2 H3 H4).
Defined.
